(** * simpledb-in-golang, package [file]: Page, BlockId and FileMgr

    A shallow embedding of [file/page.go], [file/block_id.go] and
    [file/filemgr.go], and the properties of the storage layer proved on it.

    Conventions.
    - Go's [int] and [int64] are 64-bit two's-complement integers (the amd64
      targets): a [Z] with the wrap-around of every [+] and [*] written out
      ([wrap64]); [uint32(v)] is [v mod 2^32].
    - A [[]byte] is a slice: a window into an array of the heap.  The heap is
      a list of arrays, a fresh array is appended at the end, so that two
      slices alias exactly when they name the same array.
    - A Go function returning [(T, error)] and mutating memory or files is a
      computation [S -> S * result T]; [Err] is a returned [error], [Panic]
      a run-time panic (the call does not return).
    - The operating system is modelled without faults: a call of [os] or
      [io] fails only for the reasons its arguments and the file contents
      give (a directory opened for writing, a negative offset, too few bytes
      left, a file that would outgrow [int64], a directory that is not empty
      when it is removed).  [os.Stat], [os.MkdirAll] and [os.ReadDir] in the
      constructor do not fail.
    - [encoding/binary], [io], [os] and the built-ins [make] and [copy] are
      modelled after their documentation; the mutex [fm.mu] appears where
      concurrent callers are modelled, at the end of the definitions. *)

From Stdlib Require Import ZArith Lia List String.
From Stdlib Require Import Strings.Byte.
From stdpp Require Import base gmap list strings.

Local Open Scope Z_scope.

(** ** Results and the state-and-error monad *)

Inductive result (A : Type) : Type :=
| Ok (a : A)
| Err (msg : string)
| Panic (msg : string).
Arguments Ok {A} a.
Arguments Err {A} msg.
Arguments Panic {A} msg.

Definition is_ok {A} (r : result A) : bool :=
  match r with Ok _ => true | _ => false end.

Definition M (S A : Type) : Type := S -> S * result A.

Definition ret {S A} (a : A) : M S A := fun s => (s, Ok a).
Definition fail {S A} (msg : string) : M S A := fun s => (s, Err msg).
Definition panic {S A} (msg : string) : M S A := fun s => (s, Panic msg).
Definition lift {S A} (r : result A) : M S A := fun s => (s, r).

Definition bind {S A B} (m : M S A) (k : A -> M S B) : M S B :=
  fun s =>
    match m s with
    | (s', Ok a) => k a s'
    | (s', Err e) => (s', Err e)
    | (s', Panic e) => (s', Panic e)
    end.

Notation "'let*' x ':=' m 'in' k" := (bind m (fun x => k))
  (at level 10, x pattern, m at level 100, k at level 200).

(** ** Machine integers *)

Definition wrap64 (z : Z) : Z := (z + 2 ^ 63) mod 2 ^ 64 - 2 ^ 63.
Definition int_add (a b : Z) : Z := wrap64 (a + b).
Definition int_mul (a b : Z) : Z := wrap64 (a * b).
Definition MaxInt64 : Z := 2 ^ 63 - 1.
Definition MinInt64 : Z := - 2 ^ 63.

(** [a / b] on [int64]: truncation towards zero, a panic on a zero divisor. *)
Definition int_div (a b : Z) : result Z :=
  if b =? 0 then Panic "integer divide by zero" else Ok (wrap64 (Z.quot a b)).

(** The conversion [uint32(v)]. *)
Definition uint32 (v : Z) : Z := v mod 2 ^ 32.

(** ** Bytes *)

Definition Z_of_byte (b : byte) : Z := Z.of_N (Byte.to_N b).

(** The conversion [byte(v)]: the low eight bits. *)
Definition byte_of_Z (v : Z) : byte :=
  match Byte.of_N (Z.to_N (v mod 256)) with
  | Some b => b
  | None => x00
  end.

(** ** Heap and slices *)

Abbreviation heap := (list (list byte)).

Record slice : Type := Slice { s_arr : nat; s_lo : nat; s_len : nat }.

(** [len(s)] *)
Definition len (s : slice) : Z := Z.of_nat (s_len s).

Definition array_of (h : heap) (s : slice) : list byte :=
  default [] (h !! s_arr s).

(** The bytes a slice shows. *)
Definition bytes_of (h : heap) (s : slice) : list byte :=
  take (s_len s) (drop (s_lo s) (array_of h s)).

(** A slice lies inside an allocated array. *)
Definition valid (h : heap) (s : slice) : Prop :=
  (s_arr s < length h)%nat
  /\ (s_lo s + s_len s <= length (array_of h s))%nat
  /\ Z.of_nat (length (array_of h s)) <= MaxInt64.

(** [arr] with [data] written over it from index [i] on. *)
Definition splice (arr : list byte) (i : nat) (data : list byte) : list byte :=
  take i arr ++ data ++ drop (i + length data) arr.

(** Write [data] through the slice [s], from its first byte on. *)
Definition store (s : slice) (data : list byte) : M heap unit :=
  fun h => (<[s_arr s := splice (array_of h s) (s_lo s) data]> h, Ok tt).

(** [s[a:]] *)
Definition slice_from (s : slice) (a : Z) : result slice :=
  if (a <? 0) || (len s <? a) then Panic "slice bounds out of range"
  else Ok (Slice (s_arr s) (s_lo s + Z.to_nat a) (s_len s - Z.to_nat a)).

(** [s[a:b]]; the capacity of [s] is taken to be its length. *)
Definition slice_range (s : slice) (a b : Z) : result slice :=
  if (a <? 0) || (b <? a) || (len s <? b) then Panic "slice bounds out of range"
  else Ok (Slice (s_arr s) (s_lo s + Z.to_nat a) (Z.to_nat b - Z.to_nat a)).

(** [make([]byte, n)] *)
Definition make_bytes (n : Z) : M heap slice :=
  if n <? 0 then panic "makeslice: len out of range"
  else fun h => (h ++ [replicate (Z.to_nat n) x00],
                 Ok (Slice (length h) 0 (Z.to_nat n))).

(** [copy(dst, src)]: the first [min(len(dst), len(src))] bytes of [src],
    read before any byte is written. *)
Definition copy (dst src : slice) : M heap Z :=
  fun h =>
    let n := Nat.min (s_len dst) (s_len src) in
    let data := take n (bytes_of h src) in
    (<[s_arr dst := splice (array_of h dst) (s_lo dst) data]> h,
     Ok (Z.of_nat n)).

(** [[]byte(s)]: a fresh array holding the bytes of the string. *)
Definition bytes_of_string (s : string) : M heap slice :=
  fun h =>
    let data := list_byte_of_string s in
    (h ++ [data], Ok (Slice (length h) 0 (length data))).

(** [string(b)] *)
Definition string_of_bytes (b : slice) : M heap string :=
  fun h => (h, Ok (string_of_list_byte (bytes_of h b))).

(** ** encoding/binary, big endian *)

(** [uint32(b[i])] on the bytes a slice shows. *)
Definition byte_nth (l : list byte) (i : nat) : Z :=
  Z_of_byte (default x00 (l !! i)).

Definition be_value (l : list byte) : Z :=
  Z.lor (byte_nth l 3)
    (Z.lor (Z.shiftl (byte_nth l 2) 8)
       (Z.lor (Z.shiftl (byte_nth l 1) 16)
          (Z.shiftl (byte_nth l 0) 24))).

(** [binary.BigEndian.Uint32(b)] *)
Definition Uint32 (b : slice) : M heap Z :=
  if len b <? 4 then panic "index out of range [3]"
  else fun h => (h, Ok (be_value (bytes_of h b))).

Definition be32 (v : Z) : list byte :=
  [byte_of_Z (Z.shiftr v 24); byte_of_Z (Z.shiftr v 16);
   byte_of_Z (Z.shiftr v 8); byte_of_Z v].

(** [binary.BigEndian.PutUint32(b, v)] *)
Definition PutUint32 (b : slice) (v : Z) : M heap unit :=
  if len b <? 4 then panic "index out of range [3]"
  else store b (be32 v).

(** ** page.go *)

Record Page : Type := mkPage { buf : slice }.

Definition bytesPerChar : Z := 1.

Definition NewPage (blocksize : Z) : M heap Page :=
  let* b := make_bytes blocksize in ret (mkPage b).

Definition NewPageFromBytes (b : slice) : Page := mkPage b.

Definition Buffer (p : Page) : slice := buf p.

Definition GetInt (p : Page) (offset : Z) : M heap Z :=
  if int_add offset 4 >? len (buf p) then fail "GetInt: out of bounds"
  else
    let* b := lift (slice_from (buf p) offset) in
    Uint32 b.

Definition SetInt (p : Page) (offset : Z) (v : Z) : M heap unit :=
  if int_add offset 4 >? len (buf p) then fail "SetInt: out of bounds"
  else
    let* b := lift (slice_from (buf p) offset) in
    PutUint32 b (uint32 v).

Definition GetBytes (p : Page) (offset : Z) : M heap slice :=
  if int_add offset 4 >? len (buf p) then fail "GetBytes(len): out of bounds"
  else
    let* hdr := lift (slice_from (buf p) offset) in
    let* length := Uint32 hdr in
    let start := int_add offset 4 in
    let end_ := int_add start length in
    if end_ >? len (buf p) then fail "GetBytes(data): out of bounds"
    else
      let* out := make_bytes length in
      let* src := lift (slice_range (buf p) start end_) in
      let* _ := copy out src in
      ret out.

Definition SetBytes (p : Page) (offset : Z) (b : slice) : M heap unit :=
  if int_add (int_add offset 4) (len b) >? len (buf p)
  then fail "SetBytes: out of bounds"
  else
    let* hdr := lift (slice_from (buf p) offset) in
    let* _ := PutUint32 hdr (uint32 (len b)) in
    let* dst := lift (slice_from (buf p) (int_add offset 4)) in
    let* _ := copy dst b in
    ret tt.

Definition GetString (p : Page) (offset : Z) : M heap string :=
  let* b := GetBytes p offset in
  string_of_bytes b.

Definition SetString (p : Page) (offset : Z) (s : string) : M heap unit :=
  let* b := bytes_of_string s in
  SetBytes p offset b.

Definition MaxLength (strlen : Z) : Z := int_add 4 (int_mul strlen bytesPerChar).

(** ** block_id.go *)

Record BlockId : Type := mkBlockId { filename : string; blknum : Z }.

Definition NewBlockId (filename : string) (blknum : Z) : BlockId :=
  mkBlockId filename blknum.
Definition FileName (b : BlockId) : string := filename b.
Definition Number (b : BlockId) : Z := blknum b.

(** ** The operating system under the file manager

    The managed directory is a finite map from entry names to entries; a
    file name given to the file manager is the name of an entry (the
    cleaning of paths by [filepath.Join] is not modelled).  An open file is
    a descriptor: an index into the table of open files, which holds the
    name of the entry and the position of the cursor.  [w_log] records
    every call made to the operating system, latest first. *)

Inductive entry : Type :=
| RegularFile (data : list byte)
| SubDir (names : list string).

Inductive syscall : Type :=
| SysOpen (name : string)
| SysStat (fd : nat)
| SysSeek (fd : nat) (offset : Z)
| SysRead (fd : nat) (n : nat)
| SysWrite (fd : nat) (n : nat)
| SysPwrite (fd : nat) (n : nat) (offset : Z)
| SysSync (fd : nat).

(** [*os.File] *)
Record File : Type := mkFile { fd : nat }.

Record world : Type := World {
  w_heap : heap;
  w_dir : gmap string entry;
  w_fdt : list (string * Z);
  w_open : gmap string File;      (* fm.openFiles *)
  w_log : list syscall
}.

Definition set_heap (h : heap) (w : world) : world :=
  World h (w_dir w) (w_fdt w) (w_open w) (w_log w).
Definition set_dir (d : gmap string entry) (w : world) : world :=
  World (w_heap w) d (w_fdt w) (w_open w) (w_log w).
Definition set_fdt (t : list (string * Z)) (w : world) : world :=
  World (w_heap w) (w_dir w) t (w_open w) (w_log w).
Definition set_open (o : gmap string File) (w : world) : world :=
  World (w_heap w) (w_dir w) (w_fdt w) o (w_log w).
Definition trace (c : syscall) (w : world) : world :=
  World (w_heap w) (w_dir w) (w_fdt w) (w_open w) (c :: w_log w).

(** A computation on the heap, run in the world. *)
Definition on_heap {A} (m : M heap A) : M world A :=
  fun w => let (h, r) := m (w_heap w) in (set_heap h w, r).

(** The name, the cursor and the bytes behind a descriptor. *)
Definition fd_lookup (w : world) (f : File) : option (string * Z * list byte) :=
  match w_fdt w !! fd f with
  | Some (name, pos) =>
      match w_dir w !! name with
      | Some (RegularFile data) => Some (name, pos, data)
      | _ => None
      end
  | None => None
  end.

(** [data] after [new] has been written at offset [off]; a write past the
    end leaves a hole of zero bytes, a write of nothing changes nothing. *)
Definition pwrite (data : list byte) (off : nat) (new : list byte) : list byte :=
  match new with
  | [] => data
  | _ => take off data ++ replicate (off - length data) x00 ++ new
         ++ drop (off + length new) data
  end.

(** [os.OpenFile(full, os.O_RDWR|os.O_CREATE, 0o644)] *)
Definition OpenFile (name : string) : M world File :=
  fun w =>
    let w := trace (SysOpen name) w in
    match w_dir w !! name with
    | Some (SubDir _) => (w, Err "is a directory")
    | Some (RegularFile _) =>
        (set_fdt (w_fdt w ++ [(name, 0)]) w, Ok (mkFile (length (w_fdt w))))
    | None =>
        (set_fdt (w_fdt w ++ [(name, 0)])
           (set_dir (<[name := RegularFile []]> (w_dir w)) w),
         Ok (mkFile (length (w_fdt w))))
    end.

(** [f.Stat()], of which the callers use [Size()] only. *)
Definition Stat (f : File) : M world Z :=
  fun w =>
    let w := trace (SysStat (fd f)) w in
    match fd_lookup w f with
    | Some (_, _, data) => (w, Ok (Z.of_nat (length data)))
    | None => (w, Err "bad file descriptor")
    end.

(** [f.Seek(offset, io.SeekStart)] *)
Definition Seek (f : File) (offset : Z) : M world Z :=
  fun w =>
    let w := trace (SysSeek (fd f) offset) w in
    match fd_lookup w f with
    | Some (name, _, _) =>
        if offset <? 0 then (w, Err "invalid argument")
        else (set_fdt (<[fd f := (name, offset)]> (w_fdt w)) w, Ok offset)
    | None => (w, Err "bad file descriptor")
    end.

(** [io.ReadFull(f, b)]: the bytes from the cursor on are copied into [b]
    until it is full or the file ends; a short read is an error, and the
    bytes read before it are in [b]. *)
Definition ReadFull (f : File) (b : slice) : M world Z :=
  fun w =>
    if (s_len b =? 0)%nat then (w, Ok 0) else
    let w := trace (SysRead (fd f) (s_len b)) w in
    match fd_lookup w f with
    | Some (name, pos, data) =>
        let got := take (s_len b) (drop (Z.to_nat pos) data) in
        let n := length got in
        let w := set_fdt (<[fd f := (name, pos + Z.of_nat n)]> (w_fdt w)) w in
        let w := set_heap (fst (store b got (w_heap w))) w in
        if (n =? s_len b)%nat then (w, Ok (Z.of_nat n))
        else if (n =? 0)%nat then (w, Err "EOF")
        else (w, Err "unexpected EOF")
    | None => (w, Err "bad file descriptor")
    end.

(** [f.Write(b)] *)
Definition Write_ (f : File) (b : slice) : M world Z :=
  fun w =>
    let w := trace (SysWrite (fd f) (s_len b)) w in
    match fd_lookup w f with
    | Some (name, pos, data) =>
        if pos + len b >? MaxInt64 then (w, Err "file too large")
        else
          let new := bytes_of (w_heap w) b in
          let w := set_dir (<[name := RegularFile (pwrite data (Z.to_nat pos) new)]>
                              (w_dir w)) w in
          (set_fdt (<[fd f := (name, pos + len b)]> (w_fdt w)) w, Ok (len b))
    | None => (w, Err "bad file descriptor")
    end.

(** [f.WriteAt(b, off)] *)
Definition WriteAt (f : File) (b : slice) (off : Z) : M world Z :=
  fun w =>
    if off <? 0 then (w, Err "negative offset") else
    let w := trace (SysPwrite (fd f) (s_len b) off) w in
    match fd_lookup w f with
    | Some (name, _, data) =>
        if off + len b >? MaxInt64 then (w, Err "file too large")
        else
          let new := bytes_of (w_heap w) b in
          (set_dir (<[name := RegularFile (pwrite data (Z.to_nat off) new)]>
                      (w_dir w)) w, Ok (len b))
    | None => (w, Err "bad file descriptor")
    end.

(** [f.Sync()] *)
Definition Sync (f : File) : M world unit :=
  fun w =>
    let w := trace (SysSync (fd f)) w in
    match fd_lookup w f with
    | Some _ => (w, Ok tt)
    | None => (w, Err "bad file descriptor")
    end.

(** ** filemgr.go

    The methods below are the bodies run between [fm.mu.Lock()] and the
    deferred [fm.mu.Unlock()]: one caller at a time. *)

Record FileMgr : Type := mkFileMgr {
  dbDirectory : string;
  blocksize : Z;
  isNew : bool
}.

Definition IsNew (fm : FileMgr) : bool := isNew fm.
Definition BlockSize (fm : FileMgr) : Z := blocksize fm.

Definition getFile (fm : FileMgr) (filename : string) : M world File :=
  fun w =>
    match w_open w !! filename with
    | Some f => (w, Ok f)
    | None =>
        (let* f := OpenFile filename in
         fun w' => (set_open (<[filename := f]> (w_open w')) w', Ok f)) w
    end.

Definition Length (fm : FileMgr) (filename : string) : M world Z :=
  let* f := getFile fm filename in
  let* size := Stat f in
  lift (int_div size (blocksize fm)).

Definition Read (fm : FileMgr) (blk : BlockId) (p : Page) : M world unit :=
  if negb (len (buf p) =? blocksize fm) then fail "Read: page size != blocksize"
  else
    let* f := getFile fm (FileName blk) in
    let offset := int_mul (Number blk) (blocksize fm) in
    let* _ := Seek f offset in
    let* _ := ReadFull f (buf p) in
    ret tt.

Definition Write (fm : FileMgr) (blk : BlockId) (p : Page) : M world unit :=
  if negb (len (buf p) =? blocksize fm) then fail "Write: page size != blocksize"
  else
    let* f := getFile fm (FileName blk) in
    let offset := int_mul (Number blk) (blocksize fm) in
    let* _ := Seek f offset in
    let* _ := Write_ f (buf p) in
    Sync f.

Definition Append (fm : FileMgr) (filename : string) : M world BlockId :=
  let* f := getFile fm filename in
  let* size := Stat f in
  let* newBlkNum := lift (int_div size (blocksize fm)) in
  let blk := NewBlockId filename newBlkNum in
  let* zero := on_heap (make_bytes (blocksize fm)) in
  let* _ := WriteAt f zero (int_mul newBlkNum (blocksize fm)) in
  let* _ := Sync f in
  ret blk.

(** *** NewFileMgr

    What is at the path [dbDirectory] before and after the constructor. *)

Inductive node : Type :=
| Absent
| PlainFile
| Dir (entries : gmap string entry).

(** [os.Remove]: a file or an empty directory goes, anything else stays. *)
Definition Remove (name : string) : M (gmap string entry) unit :=
  fun d =>
    match d !! name with
    | None => (d, Err "no such file or directory")
    | Some (SubDir (_ :: _)) => (d, Err "directory not empty")
    | Some _ => (delete name d, Ok tt)
    end.

(** The loop over [os.ReadDir(dbDirectory)]; the error of [os.Remove] is
    dropped. *)
Definition remove_temp (names : list string) (d : gmap string entry)
  : gmap string entry :=
  foldl (fun d name =>
           if String.prefix "temp" name then fst (Remove name d) else d)
        d names.

Definition ReadDir (d : gmap string entry) : list string :=
  (map_to_list d).*1.

Definition NewFileMgr (dbDirectory : string) (blocksize : Z)
  : M node FileMgr :=
  fun n =>
    match n with
    | PlainFile => (n, Err (dbDirectory ++ " exists and is not a directory"))
    | Absent =>
        (* os.MkdirAll, then the scan of the new, empty directory *)
        (Dir (remove_temp (ReadDir ∅) ∅), Ok (mkFileMgr dbDirectory blocksize true))
    | Dir d =>
        (Dir (remove_temp (ReadDir d) d), Ok (mkFileMgr dbDirectory blocksize false))
    end.

(** The world a new file manager starts in: no file open, nothing logged. *)
Definition init_world (h : heap) (d : gmap string entry) : world :=
  World h d [] ∅ [].

(** ** main.go

    The program writes a string and an integer into a page, writes the
    page to block 2 of [testfile], reads the block into a second page and
    prints what it finds there.  [log.Fatal] ends the program with the
    error; standard output is the list of what the print calls were given. *)

Inductive printed : Type :=
| PrintIsNew (isNew : bool)
| PrintInt (offset ival : Z)
| PrintString (offset : Z) (str : string).

(** The process: the world of the file manager, and standard output. *)
Definition proc : Type := world * list printed.

Definition in_world {A} (m : M world A) : M proc A :=
  fun '(w, out) => let (w', r) := m w in ((w', out), r).

Definition print (x : printed) : M proc unit :=
  fun '(w, out) => ((w, out ++ [x]), Ok tt).

(** [v, _ := m]: the error is dropped, and [v] is the value that the callee
    returns beside it. *)
Definition drop_err {S A} (zero : A) (m : M S A) : M S A :=
  fun s =>
    match m s with
    | (s', Err _) => (s', Ok zero)
    | sr => sr
    end.

Definition main_body (fm : FileMgr) : M proc unit :=
  let* _ := print (PrintIsNew (IsNew fm)) in
  let blk := NewBlockId "testfile" 2 in
  (* write *)
  let* p1 := in_world (on_heap (NewPage (BlockSize fm))) in
  let pos1 := 88 in
  let* _ := in_world (on_heap (SetString p1 pos1 "abcdefghijklm")) in
  let size := MaxLength (Z.of_nat (String.length "abcdefghijklm")) in
  let pos2 := int_add pos1 size in
  let* _ := in_world (on_heap (SetInt p1 pos2 345)) in
  let* _ := in_world (Write fm blk p1) in
  (* read *)
  let* p2 := in_world (on_heap (NewPage (BlockSize fm))) in
  let* _ := in_world (Read fm blk p2) in
  let* ival := drop_err 0 (in_world (on_heap (GetInt p2 pos2))) in
  let* str := drop_err EmptyString (in_world (on_heap (GetString p2 pos1))) in
  let* _ := print (PrintInt pos2 ival) in
  print (PrintString pos1 str).

Definition entries_of (n : node) : gmap string entry :=
  match n with Dir d => d | _ => ∅ end.

(** [main], from what is at the path [filetest] to what is there when the
    program ends, with what it printed and how it ended. *)
Definition main (n : node) : node * list printed * result unit :=
  match NewFileMgr "filetest" 400 n with
  | (n', Ok fm) =>
      let '(w, out, r) := main_body fm (init_world [] (entries_of n'), []) in
      (Dir (w_dir w), out, r)
  | (n', Err e) => (n', [], Err e)
  | (n', Panic e) => (n', [], Panic e)
  end.

(** ** Notions the statements use *)

(** The bytes [os.OpenFile] with [O_CREATE] finds under a name: those of the
    file, none for a name not yet in the directory. *)
Definition contents (w : world) (name : string) : option (list byte) :=
  match w_dir w !! name with
  | Some (RegularFile d) => Some d
  | Some (SubDir _) => None
  | None => Some []
  end.

(** Every cached handle is a descriptor of the file of its name, and that
    file is in the directory; no file is larger than [int64] can tell. *)
Definition world_ok (w : world) : Prop :=
  (forall name f, w_open w !! name = Some f ->
     (exists pos, w_fdt w !! fd f = Some (name, pos))
     /\ exists data, w_dir w !! name = Some (RegularFile data))
  /\ (forall name data, w_dir w !! name = Some (RegularFile data) ->
        Z.of_nat (length data) <= MaxInt64).

(** [k] calls of [Append] in sequence, each followed by a call of [Length]:
    the block returned by every call, with the length read after it. *)
Fixpoint append_loop (fm : FileMgr) (name : string) (k : nat)
  : M world (list (BlockId * Z)) :=
  match k with
  | O => ret []
  | S k' =>
      let* blk := Append fm name in
      let* n := Length fm name in
      let* rest := append_loop fm name k' in
      ret ((blk, n) :: rest)
  end.

(** An entry outlives the sweep when its name does not begin with [temp],
    or when it is a directory that is not empty. *)
Definition survives (name : string) (e : entry) : bool :=
  negb (String.prefix "temp" name)
  || match e with SubDir (_ :: _) => true | _ => false end.

(** ** Sample pages, files and file managers *)

(** A heap with one array of eight zero bytes, and the page on it. *)
Definition heap8 : heap := [replicate 8 x00].
Definition page8 : Page := mkPage (Slice 0 0 8).

(** The least length a 32-bit header cannot hold. *)
Definition big : nat := Z.to_nat (2 ^ 32).

Definition bx (l : list Z) : list byte := map byte_of_Z l.

(** A file manager with blocks of four bytes. *)
Definition fm4 : FileMgr := mkFileMgr "db" 4 false.

(** A directory with a file of six bytes, and nothing opened yet. *)
Definition world6 : world :=
  init_world [replicate 4 x00] (<["f" := RegularFile (bx [1; 2; 3; 4; 5; 6])]> ∅).

(** ** Concurrent callers

    A method body between [fm.mu.Lock()] and the deferred [fm.mu.Unlock()]
    as a sequence of atomic steps, one for every call it makes; a pool of
    goroutines, each running one body; a scheduler that picks the goroutine
    to make the next step. *)

Inductive prog (A : Type) : Type :=
| Return (r : result A)
| Atomic {X : Type} (m : M world X) (k : X -> prog A).
Arguments Return {A} r.
Arguments Atomic {A X} m k.

(** The steps of a body run one after the other, nothing in between. *)
Fixpoint run {A} (p : prog A) : M world A :=
  match p with
  | Return r => lift r
  | Atomic m k =>
      fun w =>
        match m w with
        | (w', Ok x) => run (k x) w'
        | (w', Err e) => (w', Err e)
        | (w', Panic e) => (w', Panic e)
        end
  end.

Definition Length_steps (fm : FileMgr) (filename : string) : prog Z :=
  Atomic (getFile fm filename) (fun f =>
  Atomic (Stat f) (fun size =>
  Return (int_div size (blocksize fm)))).

Definition Read_steps (fm : FileMgr) (blk : BlockId) (p : Page) : prog unit :=
  if negb (len (buf p) =? blocksize fm)
  then Return (Err "Read: page size != blocksize")
  else
    Atomic (getFile fm (FileName blk)) (fun f =>
    Atomic (Seek f (int_mul (Number blk) (blocksize fm))) (fun _ =>
    Atomic (ReadFull f (buf p)) (fun _ =>
    Return (Ok tt)))).

Definition Write_steps (fm : FileMgr) (blk : BlockId) (p : Page) : prog unit :=
  if negb (len (buf p) =? blocksize fm)
  then Return (Err "Write: page size != blocksize")
  else
    Atomic (getFile fm (FileName blk)) (fun f =>
    Atomic (Seek f (int_mul (Number blk) (blocksize fm))) (fun _ =>
    Atomic (Write_ f (buf p)) (fun _ =>
    Atomic (Sync f) (fun u =>
    Return (Ok u))))).

Definition Append_steps (fm : FileMgr) (filename : string) : prog BlockId :=
  Atomic (getFile fm filename) (fun f =>
  Atomic (Stat f) (fun size =>
  Atomic (lift (int_div size (blocksize fm))) (fun newBlkNum =>
  Atomic (on_heap (make_bytes (blocksize fm))) (fun zero =>
  Atomic (WriteAt f zero (int_mul newBlkNum (blocksize fm))) (fun _ =>
  Atomic (Sync f) (fun _ =>
  Return (Ok (NewBlockId filename newBlkNum)))))))).

(** A goroutine has not yet got the lock, or holds it with the rest of its
    body to run, or has released it and returned. *)
Inductive tstate (A : Type) : Type :=
| Ready (p : prog A)
| Running (p : prog A)
| Finished (r : result A).
Arguments Ready {A} p.
Arguments Running {A} p.
Arguments Finished {A} r.

Record pool (A : Type) : Type := Pool {
  mu : option nat;            (* fm.mu: the goroutine that holds it *)
  pw : world;
  ths : list (tstate A);
  acquired : list nat         (* the goroutines in the order they got the lock *)
}.
Arguments Pool {A} mu pw ths acquired.
Arguments mu {A} p.
Arguments pw {A} p.
Arguments ths {A} p.
Arguments acquired {A} p.

(** One step of goroutine [t].  [Lock] goes through when the mutex is free
    and blocks otherwise; a step of the body is its next call; at the end of
    the body the deferred [Unlock] runs and the method returns. *)
Definition sched_step {A} (t : nat) (st : pool A) : pool A :=
  match ths st !! t with
  | Some (Ready p) =>
      match mu st with
      | None => Pool (Some t) (pw st) (<[t := Running p]> (ths st))
                  (acquired st ++ [t])
      | Some _ => st
      end
  | Some (Running (Return r)) =>
      Pool None (pw st) (<[t := Finished r]> (ths st)) (acquired st)
  | Some (Running (Atomic m k)) =>
      match m (pw st) with
      | (w', Ok x) =>
          Pool (mu st) w' (<[t := Running (k x)]> (ths st)) (acquired st)
      | (w', Err e) =>
          Pool (mu st) w' (<[t := Running (Return (Err e))]> (ths st))
            (acquired st)
      | (w', Panic e) =>
          Pool (mu st) w' (<[t := Running (Return (Panic e))]> (ths st))
            (acquired st)
      end
  | Some (Finished _) | None => st
  end.

Definition run_sched {A} (sched : list nat) (st : pool A) : pool A :=
  foldl (fun st t => sched_step t st) st sched.

Definition init_pool {A} (progs : list (prog A)) (w : world) : pool A :=
  Pool None w (map Ready progs) [].

Definition is_finished {A} (ts : tstate A) : bool :=
  match ts with Finished _ => true | _ => false end.

Definition all_finished {A} (st : pool A) : bool := forallb is_finished (ths st).

(** The bodies run whole, one after the other, in the order given; the
    world they leave and what each returned. *)
Definition seq_run {A} (progs : list (prog A)) (order : list nat) (w : world)
  : world * gmap nat (result A) :=
  foldl (fun '(w, res) t =>
           match progs !! t with
           | Some p => let (w', r) := run p w in (w', <[t := r]> res)
           | None => (w, res)
           end)
        (w, ∅) order.

(** What goroutine [t] is doing, given the results of those that have
    returned and the holder of the lock with the rest of its body. *)
Definition tview {A} (progs : list (prog A)) (res : gmap nat (result A))
    (cur : option (nat * prog A)) (t : nat) : option (tstate A) :=
  match progs !! t with
  | None => None
  | Some p0 =>
      Some match res !! t with
           | Some r => Finished r
           | None =>
               match cur with
               | Some (h, p) => if decide (t = h) then Running p else Ready p0
               | None => Ready p0
               end
           end
  end.

(** The pool is where the bodies of the goroutines that have returned,
    run whole in the order of [acquired], have brought it; the holder of
    the lock, if any, is inside its body, and finishing that body alone
    gives what running it whole would have given. *)
Definition pool_inv {A} (progs : list (prog A)) (w0 : world) (st : pool A)
  : Prop :=
  exists done wd res,
    seq_run progs done w0 = (wd, res)
    /\ (forall t, t ∈ done <-> is_Some (res !! t))
    /\ (forall t, t ∈ done -> is_Some (progs !! t))
    /\ NoDup done
    /\ match mu st with
       | None =>
           acquired st = done /\ pw st = wd
           /\ forall t, ths st !! t = tview progs res None t
       | Some h =>
           acquired st = done ++ [h] /\ res !! h = None
           /\ exists p p0,
               progs !! h = Some p0
               /\ run p (pw st) = run p0 wd
               /\ forall t, ths st !! t = tview progs res (Some (h, p)) t
       end.

(** ** Further notions: fields of a page, blocks of a file *)

(** Two lists of bytes agree on the [n] positions from [a] on. *)
Definition agree_on (l l' : list byte) (a n : nat) : Prop :=
  forall k, (a <= k < a + n)%nat -> l !! k = l' !! k.

(** Block [m] of a file cut into blocks of [bs] bytes. *)
Definition block (bs : nat) (data : list byte) (m : nat) : list byte :=
  take bs (drop (m * bs) data).

(** The handles are as they were: the cache of open files and the number
    of descriptors. *)
Definition same_handles (w w' : world) : Prop :=
  w_open w' = w_open w /\ length (w_fdt w') = length (w_fdt w).

Definition keeps_handles {A} (m : M world A) : Prop :=
  forall w w' r, m w = (w', r) -> same_handles w w'.

(** What a call on the file [name] may do to the handles: nothing when the
    name is cached, one more descriptor at most, no other cached name
    touched; the name is cached after a call that succeeded. *)
Definition opens_at_most_once (name : string) (w : world) {A}
    (x : world * result A) : Prop :=
  let (w', r) := x in
  (is_Some (w_open w !! name) -> same_handles w w')
  /\ (forall other, other <> name -> w_open w' !! other = w_open w !! other)
  /\ (length (w_fdt w) <= length (w_fdt w') <= length (w_fdt w) + 1)%nat
  /\ (is_ok r = true -> is_Some (w_open w' !! name)).

(** The page that [main] writes: zeros, and at offset 88 the string behind
    its length, then the integer. *)
Definition main_page : list byte :=
  replicate 88 x00 ++ be32 13 ++ list_byte_of_string "abcdefghijklm"
  ++ be32 345 ++ replicate 291 x00.

(** The directory is as it was, or has gained the empty file [name]. *)
Definition dir_created (name : string) (w w' : world) : Prop :=
  w_dir w' = w_dir w
  \/ (w_dir w !! name = None
      /\ w_dir w' = <[name := RegularFile []]> (w_dir w)).

(** * Properties *)

(** ** Integers and bytes *)

Lemma wrap64_small z : - 2 ^ 63 <= z < 2 ^ 63 -> wrap64 z = z.
Proof.
  intros Hz. unfold wrap64.
  rewrite Z.mod_small by lia. lia.
Qed.

Lemma Z_of_byte_range b : 0 <= Z_of_byte b < 256.
Proof.
  unfold Z_of_byte. pose proof (Byte.to_N_bounded b) as Hb. lia.
Qed.

Lemma Z_of_byte_of_Z v : Z_of_byte (byte_of_Z v) = v mod 256.
Proof.
  unfold Z_of_byte, byte_of_Z.
  assert (0 <= v mod 256 < 256) as Hm by (apply Z.mod_pos_bound; lia).
  destruct (Byte.of_N (Z.to_N (v mod 256))) as [b|] eqn:E.
  - apply Byte.to_of_N in E. rewrite E. lia.
  - apply Byte.of_N_None_iff in E. lia.
Qed.

Lemma testbit_byte_high x n : 0 <= x < 256 -> 8 <= n -> Z.testbit x n = false.
Proof.
  intros Hx Hn.
  rewrite <- (Z.mod_small x (2 ^ 8)) by lia.
  apply Z.mod_pow2_bits_high. lia.
Qed.

(** The four bytes of [be32 v], read back most significant first. *)
Lemma be_value_be32 v rest : be_value (be32 v ++ rest) = v mod 2 ^ 32.
Proof.
  unfold be_value, byte_nth, be32. cbn [app lookup list_lookup default].
  simpl. rewrite !Z_of_byte_of_Z.
  change 256 with (2 ^ 8).
  apply Z.bits_inj'. intros n Hn.
  rewrite !Z.lor_spec, !Z.shiftl_spec by lia.
  destruct (Z.lt_ge_cases n 8); [|destruct (Z.lt_ge_cases n 16);
    [|destruct (Z.lt_ge_cases n 24); [|destruct (Z.lt_ge_cases n 32)]]].
  all: repeat first
    [ rewrite Z.mod_pow2_bits_low by lia
    | rewrite Z.mod_pow2_bits_high by lia
    | rewrite Z.shiftr_spec by lia
    | rewrite (Z.testbit_neg_r _ (n - _)) by lia ].
  all: rewrite ?orb_false_r, ?orb_false_l; try reflexivity.
  all: f_equal; lia.
Qed.

Lemma be_value_range l : 0 <= be_value l < 2 ^ 32.
Proof.
  unfold be_value.
  pose proof (Z_of_byte_range (default x00 (l !! 0%nat))) as H0.
  pose proof (Z_of_byte_range (default x00 (l !! 1%nat))) as H1.
  pose proof (Z_of_byte_range (default x00 (l !! 2%nat))) as H2.
  pose proof (Z_of_byte_range (default x00 (l !! 3%nat))) as H3.
  unfold byte_nth.
  set (b0 := Z_of_byte _) in *. set (b1 := Z_of_byte _) in *.
  set (b2 := Z_of_byte _) in *. set (b3 := Z_of_byte _) in *.
  set (x := Z.lor _ _).
  assert (0 <= x) as Hx.
  { subst x. rewrite !Z.lor_nonneg, !Z.shiftl_nonneg. lia. }
  split; [exact Hx|].
  destruct (Z.eq_dec x 0) as [->|Hne]; [lia|].
  apply Z.log2_lt_pow2; [lia|].
  destruct (Z.lt_ge_cases (Z.log2 x) 32) as [Hlt|Hge]; [exact Hlt|exfalso].
  assert (Z.testbit x (Z.log2 x) = true) as Hb by (apply Z.bit_log2; lia).
  subst x. rewrite !Z.lor_spec, !Z.shiftl_spec in Hb by lia.
  rewrite !testbit_byte_high in Hb by lia. discriminate.
Qed.

(** ** Arrays and slices *)

Lemma length_splice (arr : list byte) i data :
  (i + length data <= length arr)%nat -> length (splice arr i data) = length arr.
Proof.
  intros H. unfold splice.
  rewrite !length_app, length_take, length_drop. lia.
Qed.

Lemma lookup_splice (arr : list byte) i data k :
  (i + length data <= length arr)%nat ->
  splice arr i data !! k =
    if decide (k < i)%nat then arr !! k
    else if decide (k < i + length data)%nat then data !! (k - i)%nat
    else arr !! k.
Proof.
  intros H. unfold splice.
  destruct (decide (k < i)%nat) as [Hk|Hk].
  - rewrite lookup_app_l by (rewrite length_take; lia).
    apply lookup_take_lt. lia.
  - rewrite lookup_app_r by (rewrite length_take; lia).
    rewrite length_take, Nat.min_l by lia.
    destruct (decide (k < i + length data)%nat) as [Hd|Hd].
    + apply lookup_app_l. lia.
    + rewrite lookup_app_r by lia. rewrite lookup_drop. f_equal. lia.
Qed.

(** Writing inside a window of the array is writing inside the window. *)
Lemma window_splice (arr : list byte) lo n i data :
  (lo + n <= length arr)%nat -> (i + length data <= n)%nat ->
  take n (drop lo (splice arr (lo + i) data))
  = splice (take n (drop lo arr)) i data.
Proof.
  intros Hw Hi. apply list_eq. intros k.
  assert (length (take n (drop lo arr)) = n) as Hlen
    by (rewrite length_take, length_drop; lia).
  rewrite (lookup_splice (take n (drop lo arr))) by lia.
  destruct (decide (k < n)%nat) as [Hk|Hk].
  - rewrite lookup_take_lt, lookup_drop, lookup_splice by lia.
    repeat case_decide; try lia.
    + rewrite lookup_take_lt, lookup_drop by lia. reflexivity.
    + f_equal. lia.
    + rewrite lookup_take_lt, lookup_drop by lia. reflexivity.
  - rewrite lookup_take_ge by lia.
    repeat case_decide; try lia.
    rewrite lookup_take_ge by lia. reflexivity.
Qed.

Lemma splice_app_drop (arr : list byte) i data :
  (i + length data <= length arr)%nat ->
  drop i (splice arr i data) = data ++ drop (i + length data) arr.
Proof.
  intros H. unfold splice.
  rewrite drop_app_length'; [reflexivity|].
  rewrite length_take. lia.
Qed.

Lemma splice_all (x d : list byte) : length d = length x -> splice x 0 d = d.
Proof.
  intros H. unfold splice. rewrite take_0. simpl.
  rewrite drop_ge by lia. apply app_nil_r.
Qed.

Lemma window_drop (arr : list byte) lo n i m :
  (i + m <= n)%nat ->
  take m (drop (lo + i) arr) = take m (drop i (take n (drop lo arr))).
Proof.
  intros H. apply list_eq. intros k.
  destruct (decide (k < m)%nat) as [Hk|Hk].
  - rewrite !lookup_take_lt, !lookup_drop by lia.
    rewrite lookup_take_lt, lookup_drop by lia. f_equal. lia.
  - rewrite !lookup_take_ge by lia. reflexivity.
Qed.

Lemma array_of_insert (h : heap) a x s :
  (a < length h)%nat ->
  array_of (<[a := x]> h) s = if decide (s_arr s = a) then x else array_of h s.
Proof.
  intros Ha. unfold array_of. case_decide as E.
  - rewrite E, list_lookup_insert_eq by lia. reflexivity.
  - rewrite list_lookup_insert_ne by congruence. reflexivity.
Qed.

Lemma bytes_of_length h s : valid h s -> length (bytes_of h s) = s_len s.
Proof.
  intros (_ & Hs & _). unfold bytes_of.
  rewrite length_take, length_drop. lia.
Qed.

(** The tail [s[i:]] shows the bytes of [s] from [i] on. *)
Lemma bytes_of_tail h s i :
  (i <= s_len s)%nat ->
  bytes_of h (Slice (s_arr s) (s_lo s + i) (s_len s - i)) = drop i (bytes_of h s).
Proof.
  intros Hi. unfold bytes_of, array_of. simpl.
  rewrite <- drop_drop, take_drop_commute.
  f_equal. f_equal. lia.
Qed.

(** What a write through the tail [s[i:]] does to the bytes of [s], to the
    other arrays, and to the validity of slices. *)
Section store_tail.
Variables (h : heap) (s : slice) (i : nat) (data : list byte).
Hypothesis Hvalid : valid h s.
Hypothesis Hfit : (i + length data <= s_len s)%nat.

Let h' : heap :=
  <[s_arr s := splice (array_of h s) (s_lo s + i) data]> h.

Lemma store_tail_eq :
  store (Slice (s_arr s) (s_lo s + i) (s_len s - i)) data h = (h', Ok tt).
Proof. reflexivity. Qed.

Lemma store_tail_length : length h' = length h.
Proof. apply length_insert. Qed.

Lemma store_tail_bytes : bytes_of h' s = splice (bytes_of h s) i data.
Proof.
  destruct Hvalid as (Ha & Hs & _).
  unfold bytes_of. subst h'. rewrite array_of_insert by exact Ha.
  rewrite decide_True by reflexivity.
  apply window_splice; lia.
Qed.

Lemma store_tail_array_length t :
  length (array_of h' t) = length (array_of h t).
Proof.
  destruct Hvalid as (Ha & Hs & _).
  subst h'. rewrite array_of_insert by exact Ha.
  case_decide as E; [|reflexivity].
  rewrite length_splice by lia.
  unfold array_of. rewrite E. reflexivity.
Qed.

Lemma store_tail_valid t : valid h t -> valid h' t.
Proof.
  intros (Ha & Hs & Hm). unfold valid.
  rewrite store_tail_length, store_tail_array_length. auto.
Qed.

Lemma store_tail_frame t : s_arr t <> s_arr s -> bytes_of h' t = bytes_of h t.
Proof.
  intros Hne. destruct Hvalid as (Ha & _).
  unfold bytes_of. subst h'. rewrite array_of_insert by exact Ha.
  rewrite decide_False by exact Hne. reflexivity.
Qed.
End store_tail.

Lemma slice_from_ok s a :
  0 <= a <= len s ->
  slice_from s a
  = Ok (Slice (s_arr s) (s_lo s + Z.to_nat a) (s_len s - Z.to_nat a)).
Proof.
  intros Ha. unfold slice_from.
  replace (a <? 0) with false by (symmetry; apply Z.ltb_ge; lia).
  replace (len s <? a) with false by (symmetry; apply Z.ltb_ge; lia).
  reflexivity.
Qed.

Lemma slice_from_panics s a :
  a < 0 \/ len s < a -> slice_from s a = Panic "slice bounds out of range".
Proof.
  intros Ha. unfold slice_from.
  destruct (Z.ltb_spec a 0), (Z.ltb_spec (len s) a); try reflexivity. lia.
Qed.

Lemma slice_range_ok s a b :
  0 <= a <= b -> b <= len s ->
  slice_range s a b
  = Ok (Slice (s_arr s) (s_lo s + Z.to_nat a) (Z.to_nat b - Z.to_nat a)).
Proof.
  intros Ha Hb. unfold slice_range.
  replace (a <? 0) with false by (symmetry; apply Z.ltb_ge; lia).
  replace (b <? a) with false by (symmetry; apply Z.ltb_ge; lia).
  replace (len s <? b) with false by (symmetry; apply Z.ltb_ge; lia).
  reflexivity.
Qed.

Lemma gtb_false a b : a <= b -> (a >? b) = false.
Proof. intros H. rewrite Z.gtb_ltb. apply Z.ltb_ge. exact H. Qed.

Lemma gtb_true a b : b < a -> (a >? b) = true.
Proof. intros H. rewrite Z.gtb_ltb. apply Z.ltb_lt. exact H. Qed.

Lemma valid_len h s : valid h s -> 0 <= len s <= MaxInt64.
Proof. intros (_ & Hs & Hm). unfold len. lia. Qed.

(** ** Page: what the integer operations do to the bytes of the page *)

Section page_int.
Variables (h : heap) (p : Page) (offset : Z).
Hypothesis Hvalid : valid h (buf p).
Hypothesis Hlo : 0 <= offset.
Hypothesis Hhi : offset + 4 <= len (buf p).

Lemma GetInt_ok :
  GetInt p offset h
  = (h, Ok (be_value (drop (Z.to_nat offset) (bytes_of h (buf p))))).
Proof.
  pose proof (valid_len _ _ Hvalid) as Hl. unfold MaxInt64 in Hl.
  unfold GetInt, int_add. rewrite wrap64_small by lia.
  rewrite gtb_false by lia.
  unfold bind, lift. rewrite slice_from_ok by lia.
  unfold Uint32, len in *. cbn [s_len].
  replace (_ <? 4) with false by (symmetry; apply Z.ltb_ge; lia).
  rewrite bytes_of_tail by lia. reflexivity.
Qed.

Lemma SetInt_ok v :
  exists h',
    SetInt p offset v h = (h', Ok tt)
    /\ bytes_of h' (buf p)
       = splice (bytes_of h (buf p)) (Z.to_nat offset) (be32 (uint32 v))
    /\ length h' = length h
    /\ (forall t, valid h t -> valid h' t)
    /\ (forall t, s_arr t <> s_arr (buf p) -> bytes_of h' t = bytes_of h t).
Proof.
  pose proof (valid_len _ _ Hvalid) as Hl. unfold MaxInt64 in Hl.
  assert (Z.to_nat offset + length (be32 (uint32 v)) <= s_len (buf p))%nat
    as Hfit by (unfold len in *; simpl; lia).
  eexists. split; [|split; [|split; [|split]]].
  - unfold SetInt, int_add. rewrite wrap64_small by lia.
    rewrite gtb_false by lia.
    unfold bind, lift. rewrite slice_from_ok by lia.
    unfold PutUint32, len in *. cbn [s_len].
    replace (_ <? 4) with false by (symmetry; apply Z.ltb_ge; lia).
    apply store_tail_eq.
  - apply store_tail_bytes; assumption.
  - apply store_tail_length.
  - intros t. apply store_tail_valid; assumption.
  - intros t. apply store_tail_frame; assumption.
Qed.
End page_int.

(** Past the end of the buffer the guard of [GetInt] answers, as long as
    [offset + 4] does not overflow. *)
Lemma GetInt_past_end h p offset :
  valid h (buf p) -> 0 <= offset <= MaxInt64 - 4 -> len (buf p) < offset + 4 ->
  GetInt p offset h = (h, Err "GetInt: out of bounds").
Proof.
  intros Hv Ho Hp. unfold MaxInt64 in *.
  unfold GetInt, int_add. rewrite wrap64_small by lia.
  rewrite gtb_true by lia. reflexivity.
Qed.

Lemma SetInt_past_end h p offset v :
  valid h (buf p) -> 0 <= offset <= MaxInt64 - 4 -> len (buf p) < offset + 4 ->
  SetInt p offset v h = (h, Err "SetInt: out of bounds").
Proof.
  intros Hv Ho Hp. unfold MaxInt64 in *.
  unfold SetInt, int_add. rewrite wrap64_small by lia.
  rewrite gtb_true by lia. reflexivity.
Qed.

(** ** Page: what the byte-array operations do *)

Lemma valid_app h k s : valid h s -> valid (h ++ k) s.
Proof.
  intros (Ha & Hs & Hm). unfold valid, array_of in *.
  rewrite length_app, lookup_app_l by lia. repeat split; try lia.
Qed.

Lemma bytes_of_app h k s : (s_arr s < length h)%nat -> bytes_of (h ++ k) s = bytes_of h s.
Proof.
  intros Ha. unfold bytes_of, array_of. rewrite lookup_app_l by lia. reflexivity.
Qed.

Lemma bytes_of_fresh (h : heap) (data : list byte) :
  bytes_of (h ++ [data]) (Slice (length h) 0 (length data)) = data.
Proof.
  unfold bytes_of, array_of. cbn [s_arr s_lo s_len].
  rewrite lookup_app_r, Nat.sub_diag by lia. simpl. apply firstn_all.
Qed.

Section page_bytes.
Variables (h : heap) (p : Page) (offset : Z).
Hypothesis Hvalid : valid h (buf p).
Hypothesis Hlo : 0 <= offset.

(** The header and the payload are written one after the other. *)
Lemma SetBytes_ok b :
  valid h b -> s_arr b <> s_arr (buf p) ->
  offset + 4 + len b <= len (buf p) ->
  exists h',
    SetBytes p offset b h = (h', Ok tt)
    /\ bytes_of h' (buf p)
       = splice (splice (bytes_of h (buf p)) (Z.to_nat offset)
                   (be32 (uint32 (len b))))
           (Z.to_nat offset + 4) (bytes_of h b)
    /\ length h' = length h
    /\ (forall t, valid h t -> valid h' t)
    /\ (forall t, s_arr t <> s_arr (buf p) -> bytes_of h' t = bytes_of h t).
Proof.
  intros Hb Hne Hhi.
  pose proof (valid_len _ _ Hvalid) as Hl. unfold MaxInt64 in Hl.
  pose proof (valid_len _ _ Hb) as Hlb. unfold MaxInt64 in Hlb.
  pose proof (bytes_of_length _ _ Hb) as Hblen.
  assert (Z.to_nat offset + length (be32 (uint32 (len b))) <= s_len (buf p))%nat
    as Hfit1 by (unfold len in *; simpl; lia).
  set (h1 := <[s_arr (buf p) :=
                 splice (array_of h (buf p)) (s_lo (buf p) + Z.to_nat offset)
                   (be32 (uint32 (len b)))]> h).
  assert (valid h1 (buf p)) as Hv1 by (apply store_tail_valid; assumption).
  assert (bytes_of h1 b = bytes_of h b) as Hb1
    by (apply store_tail_frame; assumption).
  assert (Z.to_nat (offset + 4) + length (bytes_of h b) <= s_len (buf p))%nat
    as Hfit2 by (unfold len in *; lia).
  exists (<[s_arr (buf p) :=
             splice (array_of h1 (buf p))
               (s_lo (buf p) + Z.to_nat (offset + 4)) (bytes_of h b)]> h1).
  split; [|split; [|split; [|split]]].
  - unfold SetBytes, int_add. rewrite !(wrap64_small (offset + 4)) by lia.
    rewrite wrap64_small by lia.
    rewrite gtb_false by lia.
    unfold bind, lift. rewrite slice_from_ok by lia.
    unfold PutUint32. unfold len at 1. cbn [s_len].
    replace (_ <? 4) with false
      by (symmetry; apply Z.ltb_ge; unfold len in *; lia).
    rewrite store_tail_eq. fold h1.
    rewrite slice_from_ok by lia.
    unfold copy, ret. cbn [s_arr s_lo s_len]. rewrite Hb1.
    rewrite Nat.min_r by (unfold len in *; lia).
    rewrite <- Hblen, firstn_all. reflexivity.
  - rewrite (store_tail_bytes h1 (buf p) _ _ Hv1 Hfit2).
    subst h1. rewrite (store_tail_bytes h (buf p) _ _ Hvalid Hfit1).
    f_equal. lia.
  - subst h1. rewrite !length_insert. reflexivity.
  - intros t Ht. apply (store_tail_valid h1 (buf p) _ _ Hv1 Hfit2).
    apply (store_tail_valid h (buf p) _ _ Hvalid Hfit1). exact Ht.
  - intros t Ht. rewrite (store_tail_frame h1 (buf p) _ _ Hv1 t Ht).
    apply (store_tail_frame h (buf p) _ _ Hvalid t Ht).
Qed.

(** The payload is copied into an array of its own, allocated by the call. *)
Lemma GetBytes_ok :
  let L := be_value (drop (Z.to_nat offset) (bytes_of h (buf p))) in
  offset + 4 <= len (buf p) ->
  offset + 4 + L <= len (buf p) ->
  GetBytes p offset h
  = (h ++ [take (Z.to_nat L)
             (drop (Z.to_nat offset + 4) (bytes_of h (buf p)))],
     Ok (Slice (length h) 0 (Z.to_nat L))).
Proof.
  intros L Hhdr Hhi.
  pose proof (valid_len _ _ Hvalid) as Hl. unfold MaxInt64 in Hl.
  pose proof (be_value_range (drop (Z.to_nat offset) (bytes_of h (buf p))))
    as HL. fold L in HL.
  destruct Hvalid as (Ha & Hs & Hm).
  unfold GetBytes, int_add. rewrite !(wrap64_small (offset + 4)) by lia.
  rewrite gtb_false by lia.
  unfold bind, lift. rewrite slice_from_ok by lia.
  unfold Uint32. unfold len at 1. cbn [s_len].
  replace (_ <? 4) with false
    by (symmetry; apply Z.ltb_ge; unfold len in *; lia).
  rewrite bytes_of_tail by (unfold len in *; lia). fold L.
  rewrite !wrap64_small by lia.
  rewrite gtb_false by lia.
  unfold make_bytes.
  replace (L <? 0) with false by (symmetry; apply Z.ltb_ge; lia).
  rewrite slice_range_ok by lia.
  unfold copy, ret. cbn [s_arr s_lo s_len].
  replace (Z.to_nat (offset + 4 + L) - Z.to_nat (offset + 4))%nat
    with (Z.to_nat L) by lia.
  rewrite Nat.min_id.
  f_equal.
  rewrite insert_app_r_alt, Nat.sub_diag by lia. cbn [insert list_insert].
  f_equal. f_equal.
  unfold bytes_of, array_of. cbn [s_arr s_lo s_len].
  rewrite (lookup_app_l h _ (s_arr (buf p))) by lia.
  fold (array_of h (buf p)).
  rewrite (lookup_app_r h _ (length h)), Nat.sub_diag by lia.
  cbn [lookup list_lookup default].
  rewrite take_take, Nat.min_id. unfold id.
  rewrite splice_all.
  2:{ rewrite length_replicate, length_take, length_drop.
      unfold len in *. lia. }
  replace (Z.to_nat (offset + 4)) with (Z.to_nat offset + 4)%nat by lia.
  apply window_drop; unfold len in *; lia.
Qed.
End page_bytes.

Lemma array_of_insert_ne (h : heap) a x t :
  s_arr t <> a -> array_of (<[a := x]> h) t = array_of h t.
Proof.
  intros Hne. unfold array_of.
  rewrite list_lookup_insert_ne by congruence. reflexivity.
Qed.

(** [SetInt] writes to the array of the page and to no other. *)
Lemma SetInt_frame h p offset v h' r t :
  SetInt p offset v h = (h', r) -> s_arr t <> s_arr (buf p) ->
  bytes_of h' t = bytes_of h t.
Proof.
  unfold SetInt, bind, lift, fail, slice_from, PutUint32, panic, store.
  intros H Hne.
  repeat match type of H with
         | context [if ?c then _ else _] => destruct c
         end;
    cbn [s_arr] in H; inversion H; subst; try reflexivity.
  unfold bytes_of. rewrite array_of_insert_ne by exact Hne. reflexivity.
Qed.

Lemma length_list_byte_of_string s :
  length (list_byte_of_string s) = String.length s.
Proof.
  unfold list_byte_of_string. rewrite length_map.
  induction s as [|c s IH]; simpl; [reflexivity|]. rewrite IH. reflexivity.
Qed.

Lemma drop_splice_splice (old H D : list byte) off :
  length H = 4%nat -> (off + 4 + length D <= length old)%nat ->
  drop off (splice (splice old off H) (off + 4) D)
  = H ++ D ++ drop (off + 4 + length D) old.
Proof.
  intros HH Hfit. apply list_eq. intros k.
  assert (length (splice old off H) = length old) as Hlen
    by (apply length_splice; lia).
  rewrite lookup_drop, lookup_splice by lia.
  rewrite lookup_splice by lia.
  repeat case_decide; try lia.
  - rewrite lookup_app_l by lia. f_equal. lia.
  - rewrite lookup_app_r, lookup_app_l by lia. f_equal. lia.
  - rewrite lookup_app_r, lookup_app_r by lia.
    rewrite lookup_drop. f_equal. lia.
Qed.

(** ** Round trips *)

(** An integer written by [SetInt] is read back by [GetInt] modulo 2^32. *)
Lemma SetInt_then_GetInt h p offset v :
  valid h (buf p) -> 0 <= offset -> offset + 4 <= len (buf p) ->
  exists h',
    SetInt p offset v h = (h', Ok tt)
    /\ take 4 (drop (Z.to_nat offset) (bytes_of h' (buf p))) = be32 (v mod 2 ^ 32)
    /\ GetInt p offset h' = (h', Ok (v mod 2 ^ 32)).
Proof.
  intros Hv Hlo Hhi.
  destruct (SetInt_ok h p offset Hv Hlo Hhi v) as (h' & Hset & Hb & _ & Hv' & _).
  pose proof (bytes_of_length _ _ Hv) as Hlen.
  assert (drop (Z.to_nat offset) (bytes_of h' (buf p))
          = be32 (v mod 2 ^ 32)
            ++ drop (Z.to_nat offset + 4) (bytes_of h (buf p))) as Hd.
  { rewrite Hb. unfold uint32. apply splice_app_drop.
    unfold len in *. simpl. lia. }
  exists h'. split; [exact Hset|split].
  - rewrite Hd. apply (take_app_length' (be32 (v mod 2 ^ 32))). reflexivity.
  - rewrite GetInt_ok by auto.
    rewrite Hd, be_value_be32, Z.mod_mod by lia. reflexivity.
Qed.

(** Bytes written by [SetBytes] are read back by [GetBytes], as many of them
    as the 32-bit header counts, in an array the call allocates. *)
Lemma SetBytes_then_GetBytes h p offset b :
  valid h (buf p) -> valid h b -> s_arr b <> s_arr (buf p) ->
  0 <= offset -> offset + 4 + len b <= len (buf p) ->
  exists h1,
    SetBytes p offset b h = (h1, Ok tt)
    /\ length h1 = length h
    /\ valid h1 (buf p)
    /\ let data := take (Z.to_nat (len b mod 2 ^ 32)) (bytes_of h b) in
       GetBytes p offset h1
       = (h1 ++ [data], Ok (Slice (length h1) 0 (Z.to_nat (len b mod 2 ^ 32)))).
Proof.
  intros Hv Hb Hne Hlo Hhi.
  destruct (SetBytes_ok h p offset Hv Hlo b Hb Hne Hhi)
    as (h1 & Hset & Hbytes & Hlen1 & Hv1 & _).
  pose proof (bytes_of_length _ _ Hv) as Hplen.
  pose proof (bytes_of_length _ _ Hb) as Hblen.
  pose proof (valid_len _ _ Hb) as Hlb.
  assert (0 <= len b mod 2 ^ 32 <= len b) as Hmod.
  { split; [apply Z.mod_pos_bound; lia|apply Z.mod_le; lia]. }
  assert (drop (Z.to_nat offset) (bytes_of h1 (buf p))
          = be32 (uint32 (len b)) ++ bytes_of h b
            ++ drop (Z.to_nat offset + 4 + length (bytes_of h b))
                 (bytes_of h (buf p))) as Hd.
  { rewrite Hbytes. apply drop_splice_splice; [reflexivity|].
    unfold len in *. lia. }
  assert (be_value (drop (Z.to_nat offset) (bytes_of h1 (buf p)))
          = len b mod 2 ^ 32) as HL.
  { rewrite Hd, be_value_be32. unfold uint32. apply Z.mod_mod. lia. }
  exists h1. split; [exact Hset|split; [exact Hlen1|split; [auto|]]].
  intros data.
  rewrite GetBytes_ok by (auto; rewrite ?HL; lia).
  rewrite HL. f_equal. f_equal. f_equal.
  rewrite <- drop_drop, Hd.
  change (drop 4 (be32 (uint32 (len b)) ++ ?x)) with x.
  rewrite take_app_le by (unfold len in *; lia). reflexivity.
Qed.

(** For an integer of the non-negative half of [int32] the round trip is
    exact. *)
Lemma SetInt_GetInt_nonneg h p offset v :
  valid h (buf p) -> 0 <= offset -> offset + 4 <= len (buf p) ->
  0 <= v < 2 ^ 32 ->
  exists h', SetInt p offset v h = (h', Ok tt) /\ GetInt p offset h' = (h', Ok v).
Proof.
  intros Hv Hlo Hhi Hr.
  destruct (SetInt_then_GetInt h p offset v Hv Hlo Hhi) as (h' & Hs & _ & Hg).
  exists h'. split; [exact Hs|]. rewrite Hg, Z.mod_small by lia. reflexivity.
Qed.

(** A negative integer comes back increased by 2^32. *)
Lemma SetInt_GetInt_neg h p offset v :
  valid h (buf p) -> 0 <= offset -> offset + 4 <= len (buf p) ->
  - 2 ^ 31 <= v < 0 ->
  exists h', SetInt p offset v h = (h', Ok tt)
             /\ GetInt p offset h' = (h', Ok (v + 2 ^ 32)).
Proof.
  intros Hv Hlo Hhi Hr.
  destruct (SetInt_then_GetInt h p offset v Hv Hlo Hhi) as (h' & Hs & _ & Hg).
  exists h'. split; [exact Hs|]. rewrite Hg. do 2 f_equal.
  symmetry. apply (Z.mod_unique v (2 ^ 32) (-1)); lia.
Qed.

(** C1, at the failing input: on a fresh page of eight bytes, [SetInt(0, -1)]
    followed by [GetInt(0)] returns 4294967295, and the minimum of [int32]
    comes back as 2147483648; neither is the integer that was written. *)
Theorem SetInt_GetInt_negative_value :
  snd ((let* p := NewPage 8 in
        let* _ := SetInt p 0 (-1) in
        GetInt p 0) []) = Ok 4294967295
  /\ snd ((let* p := NewPage 8 in
           let* _ := SetInt p 0 (- 2 ^ 31) in
           GetInt p 0) []) = Ok 2147483648.
Proof. split; vm_compute; reflexivity. Qed.

(** C10. [SetInt] takes any integer and stores the big-endian bytes of its
    value modulo 2^32, so that [v] and [v mod 2^32] are written alike and
    [GetInt] reads [v mod 2^32] back; and whatever [GetInt] returns lies in
    [0, 2^32): it is never negative. *)
Theorem SetInt_truncates_GetInt_unsigned :
  (forall h p offset v,
      valid h (buf p) -> 0 <= offset -> offset + 4 <= len (buf p) ->
      exists h',
        SetInt p offset v h = (h', Ok tt)
        /\ take 4 (drop (Z.to_nat offset) (bytes_of h' (buf p)))
           = be32 (v mod 2 ^ 32)
        /\ GetInt p offset h' = (h', Ok (v mod 2 ^ 32)))
  /\ (forall h p offset v,
         SetInt p offset (v mod 2 ^ 32) h = SetInt p offset v h)
  /\ (forall h p offset h' r,
         GetInt p offset h = (h', Ok r) -> 0 <= r < 2 ^ 32).
Proof.
  split; [|split].
  - apply SetInt_then_GetInt.
  - intros h p offset v. unfold SetInt, uint32.
    rewrite Z.mod_mod by lia. reflexivity.
  - intros h p offset h' r. unfold GetInt, bind, lift, fail, Uint32, panic.
    destruct (_ >? _); [discriminate|].
    destruct (slice_from _ _); try discriminate.
    destruct (_ <? _); [discriminate|].
    intros [= _ <-]. apply be_value_range.
Qed.

Lemma valid_page8 : valid heap8 (buf page8).
Proof. unfold valid, MaxInt64. simpl. lia. Defined.

Lemma SetInt_truncates_GetInt_unsigned_witness :
  valid heap8 (buf page8) /\ 0 <= 4 /\ 4 + 4 <= len (buf page8)
  /\ exists h',
      SetInt page8 4 (2 ^ 32 + 5) heap8 = (h', Ok tt)
      /\ take 4 (drop (Z.to_nat 4) (bytes_of h' (buf page8)))
         = be32 ((2 ^ 32 + 5) mod 2 ^ 32)
      /\ GetInt page8 4 h' = (h', Ok ((2 ^ 32 + 5) mod 2 ^ 32)).
Proof.
  split; [exact valid_page8|].
  split; [lia|]. split; [vm_compute; discriminate|].
  apply (proj1 SetInt_truncates_GetInt_unsigned heap8 page8 4 (2 ^ 32 + 5)).
  - exact valid_page8.
  - lia.
  - vm_compute; discriminate.
Defined.

(** ** Bounds: what the guards catch and what they miss *)

(** Below the buffer the guards of [GetInt] and [SetInt] let every offset
    through that leaves [offset + 4] within the length, and the slice
    expression panics; so it does above the buffer when [offset + 4]
    overflows. *)
Lemma GetInt_SetInt_negative_offset h p offset v :
  valid h (buf p) -> MinInt64 <= offset < 0 -> offset + 4 <= len (buf p) ->
  GetInt p offset h = (h, Panic "slice bounds out of range")
  /\ SetInt p offset v h = (h, Panic "slice bounds out of range").
Proof.
  intros Hv Ho Hp. pose proof (valid_len _ _ Hv) as Hl.
  unfold MinInt64, MaxInt64 in *.
  unfold GetInt, SetInt, int_add. rewrite wrap64_small by lia.
  rewrite gtb_false by lia.
  unfold bind, lift. rewrite slice_from_panics by lia. split; reflexivity.
Qed.

Lemma GetInt_SetInt_overflowing_offset h p offset v :
  valid h (buf p) -> MaxInt64 - 4 < offset <= MaxInt64 ->
  len (buf p) < offset ->
  GetInt p offset h = (h, Panic "slice bounds out of range")
  /\ SetInt p offset v h = (h, Panic "slice bounds out of range").
Proof.
  intros Hv Ho Hlt. pose proof (valid_len _ _ Hv) as Hl.
  unfold MaxInt64 in *.
  assert (wrap64 (offset + 4) = offset + 4 - 2 ^ 64) as Hw.
  { unfold wrap64.
    replace (offset + 4 + 2 ^ 63) with (offset + 4 - 2 ^ 63 + 1 * 2 ^ 64) by lia.
    rewrite Z.mod_add, Z.mod_small by lia. lia. }
  unfold GetInt, SetInt, int_add. rewrite Hw.
  rewrite gtb_false by lia.
  unfold bind, lift. rewrite slice_from_panics by lia. split; reflexivity.
Qed.

(** Past the end of the buffer, and short of overflow, the byte-array
    operations return their bounds error and leave every array as it was;
    [SetString] has by then allocated the bytes of the string, in an array
    of their own. *)
Lemma SetBytes_past_end h p offset b :
  valid h (buf p) -> valid h b -> 0 <= offset ->
  offset + 4 + len b <= MaxInt64 -> len (buf p) < offset + 4 + len b ->
  SetBytes p offset b h = (h, Err "SetBytes: out of bounds").
Proof.
  intros Hv Hb Ho Hm Hp. pose proof (valid_len _ _ Hb) as Hl.
  unfold MaxInt64 in *.
  unfold SetBytes, int_add. rewrite (wrap64_small (offset + 4)) by lia.
  rewrite wrap64_small by lia. rewrite gtb_true by lia. reflexivity.
Qed.

Lemma GetBytes_past_end h p offset :
  valid h (buf p) -> 0 <= offset ->
  (offset + 4 <= MaxInt64 /\ len (buf p) < offset + 4 ->
   GetBytes p offset h = (h, Err "GetBytes(len): out of bounds"))
  /\ (offset + 4 <= len (buf p) -> len (buf p) <= MaxInt64 - 2 ^ 32 ->
      len (buf p)
      < offset + 4 + be_value (drop (Z.to_nat offset) (bytes_of h (buf p))) ->
      GetBytes p offset h = (h, Err "GetBytes(data): out of bounds")).
Proof.
  intros Hv Ho. pose proof (valid_len _ _ Hv) as Hl. unfold MaxInt64 in *.
  split.
  - intros (Hm & Hp). unfold GetBytes, int_add.
    rewrite wrap64_small by lia. rewrite gtb_true by lia. reflexivity.
  - intros Hhdr Hsmall Hp.
    pose proof (be_value_range (drop (Z.to_nat offset) (bytes_of h (buf p))))
      as HL.
    unfold GetBytes, int_add. rewrite !(wrap64_small (offset + 4)) by lia.
    rewrite gtb_false by lia.
    unfold bind, lift. rewrite slice_from_ok by lia.
    unfold Uint32. unfold len at 1. cbn [s_len].
    replace (_ <? 4) with false
      by (symmetry; apply Z.ltb_ge; unfold len in *; lia).
    rewrite bytes_of_tail by (unfold len in *; lia).
    set (L := be_value _) in *.
    rewrite (wrap64_small (offset + 4 + L)) by lia.
    rewrite gtb_true by lia. reflexivity.
Qed.

Lemma SetString_past_end h p offset s :
  valid h (buf p) -> 0 <= offset ->
  offset + 4 + Z.of_nat (String.length s) <= MaxInt64 ->
  len (buf p) < offset + 4 + Z.of_nat (String.length s) ->
  SetString p offset s h
  = (h ++ [list_byte_of_string s], Err "SetBytes: out of bounds").
Proof.
  intros Hv Ho Hm Hp. unfold SetString, bind, bytes_of_string.
  pose proof (length_list_byte_of_string s) as Hls.
  rewrite SetBytes_past_end; try assumption.
  - reflexivity.
  - apply valid_app. exact Hv.
  - unfold valid, array_of, MaxInt64 in *. cbn [s_arr s_lo s_len].
    rewrite length_app, lookup_app_r, Nat.sub_diag by lia. simpl. lia.
  - unfold len. cbn [s_len]. lia.
  - unfold len at 2. cbn [s_len]. lia.
Qed.

(** C2, at the failing input: on a page of 512 bytes every operation called
    with offset [-1] passes its guard ([-1 + 4 <= 512]) and panics in the
    slice expression [p.buf[offset:]]; none returns its bounds error.  The
    buffer of the page is as it was. *)
Theorem Page_negative_offset_panics :
  let h : heap := [replicate 512 x00; [x01]] in
  let p := mkPage (Slice 0 0 512) in
  GetInt p (-1) h = (h, Panic "slice bounds out of range")
  /\ SetInt p (-1) 42 h = (h, Panic "slice bounds out of range")
  /\ GetBytes p (-1) h = (h, Panic "slice bounds out of range")
  /\ SetBytes p (-1) (Slice 1 0 1) h = (h, Panic "slice bounds out of range")
  /\ GetString p (-1) h = (h, Panic "slice bounds out of range")
  /\ snd (SetString p (-1) "a" h) = Panic "slice bounds out of range"
  /\ bytes_of (fst (SetString p (-1) "a" h)) (buf p) = bytes_of h (buf p).
Proof. repeat split; vm_compute; reflexivity. Qed.

(** ** Byte arrays and strings *)

(** Where the round trip of [SetBytes] and [GetBytes] stops: a length of
    2^32 is written as a header of zero, and nothing is read back. *)
Lemma SetBytes_GetBytes_4GiB (n : nat) :
  Z.of_nat n = 2 ^ 32 ->
  let h : heap := [replicate (n + 4) x00; replicate n x01] in
  let p := mkPage (Slice 0 0 (n + 4)) in
  let b := Slice 1 0 n in
  valid h (buf p) /\ valid h b /\ s_arr b <> s_arr (buf p)
  /\ 0 + 4 + len b <= len (buf p)
  /\ exists h1 h2 out,
      SetBytes p 0 b h = (h1, Ok tt)
      /\ GetBytes p 0 h1 = (h2, Ok out)
      /\ bytes_of h2 out = []
      /\ bytes_of h b <> [].
Proof.
  intros Hn h p b.
  assert (valid h (buf p)) as Hp.
  { unfold valid, array_of, MaxInt64. cbn [h p buf s_arr s_lo s_len length lookup list_lookup default].
    unfold id. rewrite length_replicate. lia. }
  assert (valid h b) as Hb.
  { unfold valid, array_of, MaxInt64. cbn [h b s_arr s_lo s_len length lookup list_lookup default].
    unfold id. rewrite length_replicate. lia. }
  assert (s_arr b <> s_arr (buf p)) as Hne by (cbn; lia).
  assert (0 + 4 + len b <= len (buf p)) as Hfit
    by (unfold len; cbn [p b buf s_len]; lia).
  split; [exact Hp|split; [exact Hb|split; [exact Hne|split; [exact Hfit|]]]].
  destruct (SetBytes_then_GetBytes h p 0 b Hp Hb Hne ltac:(lia) Hfit)
    as (h1 & Hset & Hlen & Hv1 & Hget).
  cbv zeta in Hget.
  assert (len b mod 2 ^ 32 = 0) as Hz.
  { unfold len. cbn [b s_len]. rewrite Hn. apply Z.mod_same. lia. }
  rewrite Hz in Hget. change (Z.to_nat 0) with 0%nat in Hget.
  rewrite take_0 in Hget.
  exists h1, (h1 ++ [[]]), (Slice (length h1) 0 0).
  split; [exact Hset|split; [exact Hget|split]].
  - apply (bytes_of_fresh h1 []).
  - intros Hnil. apply (f_equal length) in Hnil.
    rewrite bytes_of_length in Hnil by exact Hb.
    cbn [b s_len length] in Hnil. lia.
Qed.




(** ** The file manager *)

Lemma world_ok_init h d :
  (forall name data, d !! name = Some (RegularFile data) ->
     Z.of_nat (length data) <= MaxInt64) ->
  world_ok (init_world h d).
Proof.
  intros Hd. split; [|exact Hd].
  intros name f Hf. cbn in Hf. rewrite lookup_empty in Hf. discriminate.
Qed.

Lemma fd_lookup_Some w f name pos data :
  w_fdt w !! fd f = Some (name, pos) ->
  w_dir w !! name = Some (RegularFile data) ->
  fd_lookup w f = Some (name, pos, data).
Proof. intros H1 H2. unfold fd_lookup. rewrite H1, H2. reflexivity. Qed.

(** [getFile] on a name that is, or can become, a regular file. *)
Lemma getFile_ok fm w name data :
  world_ok w -> contents w name = Some data ->
  exists w' f pos,
    getFile fm name w = (w', Ok f)
    /\ world_ok w'
    /\ w_heap w' = w_heap w
    /\ w_dir w' = <[name := RegularFile data]> (w_dir w)
    /\ w_dir w' !! name = Some (RegularFile data)
    /\ w_fdt w' !! fd f = Some (name, pos)
    /\ w_open w' !! name = Some f.
Proof.
  intros (Hopen & Hsize) Hc. unfold getFile.
  destruct (w_open w !! name) as [f|] eqn:Ho.
  - destruct (Hopen _ _ Ho) as ((pos & Hfd) & (d & Hd)).
    assert (d = data) as -> by (unfold contents in Hc; rewrite Hd in Hc; congruence).
    exists w, f, pos.
    split; [reflexivity|]. split; [split; assumption|].
    split; [reflexivity|]. split; [symmetry; apply insert_id; exact Hd|].
    split; [exact Hd|]. split; assumption.
  - unfold bind, OpenFile. cbn [w_dir trace].
    unfold contents in Hc.
    destruct (w_dir w !! name) as [[d|names]|] eqn:Hd; [|discriminate|].
    + assert (d = data) as -> by congruence.
      eexists _, _, 0. split; [reflexivity|]. cbn.
      split; [split|repeat split].
      * intros name' f' Hf'. cbn in *.
        destruct (decide (name = name')) as [<-|Hne].
        -- rewrite lookup_insert_eq in Hf'. injection Hf' as <-. cbn.
           split; [|eauto]. exists 0.
           rewrite lookup_app_r, Nat.sub_diag by lia. reflexivity.
        -- rewrite lookup_insert_ne in Hf' by exact Hne.
           destruct (Hopen _ _ Hf') as ((pos & Hfd) & Hdd).
           split; [|exact Hdd]. exists pos.
           apply lookup_app_l_Some. exact Hfd.
      * exact Hsize.
      * symmetry. apply insert_id. exact Hd.
      * exact Hd.
      * rewrite lookup_app_r, Nat.sub_diag by lia. reflexivity.
      * apply lookup_insert_eq.
    + assert (data = []) as -> by congruence.
      eexists _, _, 0. split; [reflexivity|]. cbn.
      split; [split|repeat split].
      * intros name' f' Hf'. cbn in *.
        destruct (decide (name = name')) as [<-|Hne].
        -- rewrite lookup_insert_eq in Hf'. injection Hf' as <-. cbn.
           split; [|rewrite lookup_insert_eq; eauto]. exists 0.
           rewrite lookup_app_r, Nat.sub_diag by lia. reflexivity.
        -- rewrite lookup_insert_ne in Hf' by exact Hne.
           destruct (Hopen _ _ Hf') as ((pos & Hfd) & Hdd).
           split; [|rewrite lookup_insert_ne by exact Hne; exact Hdd].
           exists pos. apply lookup_app_l_Some. exact Hfd.
      * intros name' d'. cbn.
        destruct (decide (name = name')) as [<-|Hne].
        -- rewrite lookup_insert_eq. intros [= <-]. unfold MaxInt64. simpl. lia.
        -- rewrite lookup_insert_ne by exact Hne. apply Hsize.
      * apply lookup_insert_eq.
      * rewrite lookup_app_r, Nat.sub_diag by lia. reflexivity.
      * apply lookup_insert_eq.
Qed.

Lemma world_ok_trace c w : world_ok w -> world_ok (trace c w).
Proof. intros H. exact H. Qed.

Lemma Stat_ok w f name pos data :
  w_fdt w !! fd f = Some (name, pos) ->
  w_dir w !! name = Some (RegularFile data) ->
  Stat f w = (trace (SysStat (fd f)) w, Ok (Z.of_nat (length data))).
Proof.
  intros Hfd Hd. unfold Stat.
  rewrite (fd_lookup_Some _ f name pos data) by assumption. reflexivity.
Qed.

Lemma Sync_ok w f name pos data :
  w_fdt w !! fd f = Some (name, pos) ->
  w_dir w !! name = Some (RegularFile data) ->
  Sync f w = (trace (SysSync (fd f)) w, Ok tt).
Proof.
  intros Hfd Hd. unfold Sync.
  rewrite (fd_lookup_Some _ f name pos data) by assumption. reflexivity.
Qed.

Lemma int_div_ok a b :
  0 <= a <= MaxInt64 -> 0 < b -> int_div a b = Ok (a / b).
Proof.
  intros Ha Hb. unfold int_div, MaxInt64 in *.
  replace (b =? 0) with false by (symmetry; apply Z.eqb_neq; lia).
  rewrite Z.quot_div_nonneg by lia.
  assert (0 <= a / b <= a).
  { split; [apply Z.div_pos; lia|]. apply Z.div_le_upper_bound; nia. }
  rewrite wrap64_small by lia. reflexivity.
Qed.

Lemma Length_ok fm w name data :
  world_ok w -> 0 < blocksize fm -> contents w name = Some data ->
  exists w',
    Length fm name w = (w', Ok (Z.of_nat (length data) / blocksize fm))
    /\ world_ok w'
    /\ w_heap w' = w_heap w
    /\ w_dir w' = <[name := RegularFile data]> (w_dir w).
Proof.
  intros Hok Hbs Hc.
  destruct (getFile_ok fm w name data Hok Hc)
    as (w1 & f & pos & Hget & Hok1 & Hh1 & Hd1 & Hn1 & Hfd1 & Ho1).
  exists (trace (SysStat (fd f)) w1).
  split; [|split; [apply world_ok_trace; exact Hok1|split; assumption]].
  unfold Length, bind. rewrite Hget, (Stat_ok w1 f name pos data) by assumption.
  unfold lift. rewrite int_div_ok; [reflexivity| |exact Hbs].
  split; [lia|]. destruct Hok1 as (_ & Hsize). eapply Hsize. exact Hn1.
Qed.


Lemma world6_ok : world_ok world6.
Proof.
  apply world_ok_init. intros name data.
  destruct (decide (name = "f")) as [->|Hne].
  - rewrite lookup_insert_eq. intros [= <-]. unfold MaxInt64. simpl. lia.
  - rewrite lookup_insert_ne, lookup_empty by congruence. discriminate.
Defined.


(** C6. A page whose buffer is not a block long makes [Read] and [Write]
    return their size error at once, whatever the block: no file is opened
    or created, no call reaches the operating system, and heap, directory
    and handle cache are as before. *)
Theorem Read_Write_reject_wrong_page_size fm blk p w :
  len (buf p) <> blocksize fm ->
  Read fm blk p w = (w, Err "Read: page size != blocksize")
  /\ Write fm blk p w = (w, Err "Write: page size != blocksize").
Proof.
  intros Hne. unfold Read, Write.
  replace (len (buf p) =? blocksize fm) with false
    by (symmetry; apply Z.eqb_neq; exact Hne).
  split; reflexivity.
Qed.

Lemma Read_Write_reject_wrong_page_size_witness :
  len (buf page8) <> blocksize fm4
  /\ Read fm4 (NewBlockId "f" 0) page8 world6
     = (world6, Err "Read: page size != blocksize")
  /\ Write fm4 (NewBlockId "f" 0) page8 world6
     = (world6, Err "Write: page size != blocksize").
Proof.
  assert (len (buf page8) <> blocksize fm4) as H by (vm_compute; discriminate).
  split; [exact H|].
  apply (Read_Write_reject_wrong_page_size fm4 (NewBlockId "f" 0) page8 world6 H).
Defined.

(** ** Append *)

Lemma pwrite_at_end (data new : list byte) off :
  new <> [] -> (off <= length data <= off + length new)%nat ->
  pwrite data off new = take off data ++ new.
Proof.
  intros Hnew Hoff. unfold pwrite. destruct new as [|x new]; [congruence|].
  replace (off - length data)%nat with 0%nat by lia.
  rewrite drop_ge by lia. cbn [replicate]. rewrite app_nil_r. reflexivity.
Qed.

(** Replacing the bytes of a file keeps the world in order. *)
Lemma world_ok_write w name data data' h l :
  world_ok w -> w_dir w !! name = Some (RegularFile data) ->
  Z.of_nat (length data') <= MaxInt64 ->
  world_ok (World h (<[name := RegularFile data']> (w_dir w))
              (w_fdt w) (w_open w) l).
Proof.
  intros (Hopen & Hsize) Hd Hlen. split; cbn.
  - intros name' f' Hf'. destruct (Hopen _ _ Hf') as (Hfd & (d & Hdd)).
    split; [exact Hfd|].
    destruct (decide (name = name')) as [<-|Hne].
    + rewrite lookup_insert_eq. eauto.
    + rewrite lookup_insert_ne by exact Hne. eauto.
  - intros name' d'. destruct (decide (name = name')) as [<-|Hne].
    + rewrite lookup_insert_eq. intros [= <-]. exact Hlen.
    + rewrite lookup_insert_ne by exact Hne. apply Hsize.
Qed.

Lemma Append_ok fm w name data :
  let n := Z.of_nat (length data) / blocksize fm in
  world_ok w -> 0 < blocksize fm -> contents w name = Some data ->
  (n + 1) * blocksize fm <= MaxInt64 ->
  exists w',
    Append fm name w = (w', Ok (NewBlockId name n))
    /\ world_ok w'
    /\ w_dir w' !! name
       = Some (RegularFile (take (Z.to_nat (n * blocksize fm)) data
                            ++ replicate (Z.to_nat (blocksize fm)) x00))
    /\ forall name', name' <> name ->
         w_dir w' !! name' = w_dir w !! name'.
Proof.
  intros n Hok Hbs Hc Hmax.
  destruct (getFile_ok fm w name data Hok Hc)
    as (w1 & f & pos & Hget & Hok1 & Hh1 & Hd1 & Hn1 & Hfd1 & Ho1).
  assert (0 <= Z.of_nat (length data) <= MaxInt64) as Hsz.
  { split; [lia|]. destruct Hok1 as (_ & Hsize). eapply Hsize. exact Hn1. }
  assert (n * blocksize fm <= Z.of_nat (length data)
          < (n + 1) * blocksize fm) as Hn.
  { pose proof (Z.div_mod (Z.of_nat (length data)) (blocksize fm)) as Hdm.
    pose proof (Z.mod_pos_bound (Z.of_nat (length data)) (blocksize fm) Hbs).
    subst n. nia. }
  assert (0 <= n) as Hn0 by (apply Z.div_pos; lia).
  set (zeros := replicate (Z.to_nat (blocksize fm)) x00).
  set (new := take (Z.to_nat (n * blocksize fm)) data ++ zeros).
  exists (World (w_heap w1 ++ [zeros])
            (<[name := RegularFile new]> (w_dir w1)) (w_fdt w1) (w_open w1)
            (SysSync (fd f)
               :: SysPwrite (fd f) (Z.to_nat (blocksize fm)) (n * blocksize fm)
               :: SysStat (fd f) :: w_log w1)).
  assert (length zeros = Z.to_nat (blocksize fm)) as Hzl
    by apply length_replicate.
  split; [|split; [|split]].
  - unfold Append, bind. rewrite Hget.
    rewrite (Stat_ok w1 f name pos data) by assumption.
    unfold lift. rewrite int_div_ok by assumption. fold n.
    unfold on_heap, make_bytes.
    replace (blocksize fm <? 0) with false by (symmetry; apply Z.ltb_ge; lia).
    cbn [w_heap trace set_heap].
    unfold int_mul, MaxInt64 in *. rewrite wrap64_small by nia.
    unfold WriteAt.
    replace (n * blocksize fm <? 0) with false
      by (symmetry; apply Z.ltb_ge; nia).
    erewrite fd_lookup_Some; [|cbn; exact Hfd1|cbn; exact Hn1].
    unfold len. cbn [s_len w_heap w_dir trace set_heap].
    rewrite gtb_false by (unfold MaxInt64; lia).
    fold zeros.
    replace (bytes_of (w_heap w1 ++ [zeros])
               (Slice (length (w_heap w1)) 0 (Z.to_nat (blocksize fm))))
      with zeros by (rewrite <- Hzl; symmetry; apply bytes_of_fresh).
    rewrite pwrite_at_end.
    2:{ subst zeros. destruct (Z.to_nat (blocksize fm)) eqn:E; [lia|].
        discriminate. }
    2:{ rewrite Hzl. lia. }
    fold new.
    erewrite Sync_ok;
      [|cbn; exact Hfd1|cbn; apply lookup_insert_eq].
    unfold ret. reflexivity.
  - apply (world_ok_write w1 name data new); try assumption.
    subst new. rewrite length_app, length_take, Hzl. unfold MaxInt64 in *. lia.
  - cbn. apply lookup_insert_eq.
  - intros name' Hne. cbn. rewrite lookup_insert_ne by congruence.
    rewrite Hd1. apply lookup_insert_ne. congruence.
Qed.

Lemma contents_lookup w name data :
  w_dir w !! name = Some (RegularFile data) -> contents w name = Some data.
Proof. intros H. unfold contents. rewrite H. reflexivity. Qed.

Lemma append_loop_from fm name (k : nat) : forall (j : Z) w,
  world_ok w -> 0 < blocksize fm -> 0 <= j ->
  contents w name = Some (replicate (Z.to_nat (j * blocksize fm)) x00) ->
  (j + Z.of_nat k) * blocksize fm <= MaxInt64 ->
  exists w',
    append_loop fm name k w
    = (w', Ok (map (fun i => (NewBlockId name i, i + 1)) (seqZ j (Z.of_nat k))))
    /\ world_ok w'
    /\ contents w' name
       = Some (replicate (Z.to_nat ((j + Z.of_nat k) * blocksize fm)) x00).
Proof.
  induction k as [|k IH]; intros j w Hok Hbs Hj Hc Hmax.
  - exists w. split; [reflexivity|]. split; [exact Hok|].
    rewrite Hc. do 3 f_equal. lia.
  - set (data := replicate (Z.to_nat (j * blocksize fm)) x00) in *.
    assert (Z.of_nat (length data) = j * blocksize fm) as Hlen
      by (subst data; rewrite length_replicate; nia).
    assert (Z.of_nat (length data) / blocksize fm = j) as Hdiv
      by (rewrite Hlen; apply Z.div_mul; lia).
    destruct (Append_ok fm w name data Hok Hbs Hc) as (w1 & Happ & Hok1 & Hd1 & _).
    { rewrite Hdiv. nia. }
    rewrite Hdiv in Happ, Hd1.
    set (data1 := replicate (Z.to_nat ((j + 1) * blocksize fm)) x00).
    assert (take (Z.to_nat (j * blocksize fm)) data
            ++ replicate (Z.to_nat (blocksize fm)) x00 = data1) as Hnew.
    { subst data data1. rewrite take_ge by (rewrite length_replicate; lia).
      rewrite <- replicate_add. f_equal. nia. }
    rewrite Hnew in Hd1.
    destruct (Length_ok fm w1 name data1 Hok1 Hbs (contents_lookup _ _ _ Hd1))
      as (w2 & HL & Hok2 & _ & Hd2).
    assert (Z.of_nat (length data1) / blocksize fm = j + 1) as Hdiv1.
    { subst data1. rewrite length_replicate, Z2Nat.id by nia.
      apply Z.div_mul. lia. }
    rewrite Hdiv1 in HL.
    destruct (IH (j + 1) w2 Hok2 Hbs) as (w3 & Hloop & Hok3 & Hc3).
    { lia. }
    { apply contents_lookup. rewrite Hd2. apply lookup_insert_eq. }
    { replace (j + 1 + Z.of_nat k) with (j + Z.of_nat (S k)) by lia.
      exact Hmax. }
    exists w3. split; [|split; [exact Hok3|]].
    + cbn [append_loop]. unfold bind at 1. rewrite Happ.
      unfold bind at 1. rewrite HL.
      unfold bind at 1. rewrite Hloop. unfold ret.
      rewrite (seqZ_cons j) by lia. cbn [map].
      replace (Z.succ j) with (j + 1) by lia.
      replace (Z.pred (Z.of_nat (S k))) with (Z.of_nat k) by lia.
      reflexivity.
    + rewrite Hc3. do 3 f_equal. lia.
Qed.



(** ** Read and Write: the page buffer when the call fails *)

Lemma store_nil (h : heap) s : fst (store s [] h) = h.
Proof.
  unfold store, splice, array_of. cbn [fst length].
  rewrite Nat.add_0_r, app_nil_l, take_drop.
  destruct (h !! s_arr s) as [arr|] eqn:E; cbn [default from_option].
  - apply list_insert_id. exact E.
  - apply list_insert_ge. apply lookup_ge_None. exact E.
Qed.

Lemma store_bytes (h : heap) s data :
  valid h s -> (length data <= s_len s)%nat ->
  bytes_of (fst (store s data h)) s = data ++ drop (length data) (bytes_of h s).
Proof.
  intros Hv Hfit.
  pose proof (store_tail_bytes h s 0 data Hv ltac:(lia)) as H.
  rewrite Nat.add_0_r in H. unfold store. cbn [fst]. rewrite H.
  unfold splice. rewrite take_0. reflexivity.
Qed.

Lemma getFile_heap fm name w w' r :
  getFile fm name w = (w', r) -> w_heap w' = w_heap w.
Proof.
  unfold getFile, bind, OpenFile. intros H.
  destruct (w_open w !! name); [injection H as <- _; reflexivity|].
  cbn [w_dir trace] in H.
  destruct (w_dir w !! name) as [[d|names]|]; injection H as <- _; reflexivity.
Qed.

Lemma Seek_heap f offset w w' r :
  Seek f offset w = (w', r) -> w_heap w' = w_heap w.
Proof.
  unfold Seek. intros H.
  destruct (fd_lookup _ f) as [[[name pos] data]|];
    [destruct (offset <? 0)|]; injection H as <- _; reflexivity.
Qed.

Lemma Write__heap f b w w' r :
  Write_ f b w = (w', r) -> w_heap w' = w_heap w.
Proof.
  unfold Write_. intros H.
  destruct (fd_lookup _ f) as [[[name pos] data]|];
    [destruct (_ >? _)|]; injection H as <- _; reflexivity.
Qed.

Lemma Sync_heap f w w' r : Sync f w = (w', r) -> w_heap w' = w_heap w.
Proof.
  unfold Sync. intros H.
  destruct (fd_lookup _ f); injection H as <- _; reflexivity.
Qed.

Lemma Write_heap fm blk p w w' r :
  Write fm blk p w = (w', r) -> w_heap w' = w_heap w.
Proof.
  unfold Write, bind, fail. intros H.
  destruct (negb _); [injection H as <- _; reflexivity|].
  destruct (getFile fm (FileName blk) w) as [w1 r1] eqn:E1.
  apply getFile_heap in E1.
  destruct r1 as [f|e|e]; [|injection H as <- _; exact E1..].
  destruct (Seek f _ w1) as [w2 r2] eqn:E2. apply Seek_heap in E2.
  destruct r2 as [z|e|e]; [|injection H as <- _; congruence..].
  destruct (Write_ f (buf p) w2) as [w3 r3] eqn:E3. apply Write__heap in E3.
  destruct r3 as [z3|e|e]; [|injection H as <- _; congruence..].
  apply Sync_heap in H. congruence.
Qed.

(** A short read leaves in the buffer the bytes it got before the file
    ended. *)
Lemma ReadFull_short f b w w' r :
  valid (w_heap w) b -> ReadFull f b w = (w', r) -> is_ok r = false ->
  w_heap w' = w_heap w
  \/ (r = Err "unexpected EOF"
      /\ exists got,
          (0 < length got < s_len b)%nat
          /\ bytes_of (w_heap w') b
             = got ++ drop (length got) (bytes_of (w_heap w) b)).
Proof.
  intros Hv H Hr. unfold ReadFull in H.
  destruct (s_len b =? 0)%nat; [injection H as _ <-; discriminate|].
  destruct (fd_lookup _ f) as [[[name pos] data]|];
    [|injection H as <- _; left; reflexivity].
  set (got := take (s_len b) (drop (Z.to_nat pos) data)) in H.
  assert (length got <= s_len b)%nat as Hle
    by (subst got; rewrite length_take; lia).
  destruct (Nat.eqb_spec (length got) (s_len b)) as [E|E];
    [injection H as _ <-; discriminate|].
  destruct (Nat.eqb_spec (length got) 0) as [E0|E0]; injection H as <- <-.
  - left. cbn. destruct got; [apply store_nil|discriminate].
  - right. split; [reflexivity|]. exists got. split; [lia|].
    cbn. apply store_bytes; assumption.
Qed.

(** [Read] of a block the file does not hold in full. *)
Lemma Read_short_block fm w blk p data :
  let avail := drop (Z.to_nat (Number blk * blocksize fm)) data in
  world_ok w -> valid (w_heap w) (buf p) ->
  len (buf p) = blocksize fm -> 0 < blocksize fm ->
  contents w (FileName blk) = Some data ->
  0 <= Number blk -> Number blk * blocksize fm <= MaxInt64 ->
  Z.of_nat (length data) < (Number blk + 1) * blocksize fm ->
  exists w',
    Read fm blk p w
    = (w', Err (if decide (avail = []) then "EOF" else "unexpected EOF"))
    /\ bytes_of (w_heap w') (buf p)
       = avail ++ drop (length avail) (bytes_of (w_heap w) (buf p)).
Proof.
  intros avail Hok Hv Hlen Hbs Hc Hn Hmax Hshort.
  destruct (getFile_ok fm w (FileName blk) data Hok Hc)
    as (w1 & f & pos & Hget & Hok1 & Hh1 & Hd1 & Hn1 & Hfd1 & Ho1).
  set (off := Number blk * blocksize fm) in *.
  assert (0 <= off) as Hoff by (subst off; nia).
  assert (take (s_len (buf p)) (drop (Z.to_nat off) data) = avail) as Hgot.
  { apply take_ge. fold avail. subst avail. rewrite length_drop.
    unfold len in Hlen. nia. }
  assert (length avail <> s_len (buf p)) as Hne.
  { subst avail. rewrite length_drop. unfold len in Hlen. nia. }
  assert (length avail <= s_len (buf p))%nat as Hle.
  { subst avail. rewrite length_drop. unfold len in Hlen. nia. }
  assert (fd f < length (w_fdt w1))%nat as Hfdlt
    by (eapply lookup_lt_Some; exact Hfd1).
  eexists. split.
  - unfold Read, bind.
    replace (len (buf p) =? blocksize fm) with true
      by (symmetry; apply Z.eqb_eq; exact Hlen).
    cbn [negb]. rewrite Hget.
    unfold int_mul. fold off. unfold MaxInt64 in *.
    rewrite wrap64_small by lia.
    unfold Seek. erewrite fd_lookup_Some; [|cbn; exact Hfd1|cbn; exact Hn1].
    replace (off <? 0) with false by (symmetry; apply Z.ltb_ge; lia).
    unfold ReadFull.
    replace (s_len (buf p) =? 0)%nat with false
      by (symmetry; apply Nat.eqb_neq; unfold len in Hlen; lia).
    erewrite fd_lookup_Some;
      [|cbn; apply list_lookup_insert_eq; exact Hfdlt|cbn; exact Hn1].
    rewrite Hgot.
    replace (length avail =? s_len (buf p))%nat with false
      by (symmetry; apply Nat.eqb_neq; exact Hne).
    unfold ret.
    destruct (decide (avail = [])) as [E|E].
    + replace (length avail =? 0)%nat with true by (rewrite E; reflexivity).
      reflexivity.
    + replace (length avail =? 0)%nat with false; [reflexivity|].
      symmetry. apply Nat.eqb_neq. destruct avail; [congruence|discriminate].
  - destruct (decide (avail = [])) as [E|E]; cbn; rewrite Hh1;
      apply store_bytes; assumption.
Qed.

Lemma Read_failure fm blk p w w' r :
  valid (w_heap w) (buf p) -> Read fm blk p w = (w', r) -> is_ok r = false ->
  w_heap w' = w_heap w
  \/ (r = Err "unexpected EOF"
      /\ exists got,
          (0 < length got < s_len (buf p))%nat
          /\ bytes_of (w_heap w') (buf p)
             = got ++ drop (length got) (bytes_of (w_heap w) (buf p))).
Proof.
  intros Hv H Hr. unfold Read, bind, fail in H.
  destruct (negb _); [injection H as <- _; left; reflexivity|].
  destruct (getFile fm (FileName blk) w) as [w1 r1] eqn:E1.
  apply getFile_heap in E1.
  destruct r1 as [f|e|e]; [|injection H as <- _; left; exact E1..].
  destruct (Seek f _ w1) as [w2 r2] eqn:E2. apply Seek_heap in E2.
  destruct r2 as [z|e|e]; [|injection H as <- _; left; congruence..].
  destruct (ReadFull f (buf p) w2) as [w3 r3] eqn:E3.
  assert (w_heap w2 = w_heap w) as Hh2 by congruence.
  rewrite <- Hh2 in Hv |- *.
  destruct r3 as [z3|e|e].
  - injection H as _ <-. discriminate.
  - injection H as <- <-.
    destruct (ReadFull_short f (buf p) w2 w3 _ Hv E3 eq_refl)
      as [Hsame|(He & Hgot)]; [left; exact Hsame|right].
    injection He as ->. split; [reflexivity|exact Hgot].
  - injection H as <- <-.
    destruct (ReadFull_short f (buf p) w2 w3 _ Hv E3 eq_refl)
      as [Hsame|(He & Hgot)]; [left; exact Hsame|discriminate].
Qed.




(** ** NewFileMgr: the start-up sweep *)

Lemma sweep_step_lookup (d : gmap string entry) n k :
  (if String.prefix "temp" n then fst (Remove n d) else d) !! k
  = match d !! k with
    | Some e => if decide (k = n)
                then if survives k e then Some e else None
                else Some e
    | None => None
    end.
Proof.
  unfold survives, Remove.
  destruct (decide (k = n)) as [->|Hne].
  - destruct (String.prefix "temp" n); cbn [negb orb].
    + destruct (d !! n) as [[data|[|x names]]|] eqn:E; cbn [fst];
        rewrite ?lookup_delete_eq, ?E; reflexivity.
    + destruct (d !! n); reflexivity.
  - destruct (String.prefix "temp" n).
    + destruct (d !! n) as [[data|[|x names]]|] eqn:E; cbn [fst];
        rewrite ?lookup_delete_ne by congruence;
        destruct (d !! k); reflexivity.
    + destruct (d !! k); reflexivity.
Qed.

Lemma remove_temp_lookup names : forall (d : gmap string entry) k,
  remove_temp names d !! k
  = match d !! k with
    | Some e => if decide (k ∈ names)
                then if survives k e then Some e else None
                else Some e
    | None => None
    end.
Proof.
  induction names as [|n ns IH]; intros d k.
  - cbn. destruct (d !! k); [|reflexivity].
    rewrite decide_False by apply not_elem_of_nil. reflexivity.
  - unfold remove_temp in *. cbn [foldl]. rewrite IH, sweep_step_lookup.
    destruct (d !! k) as [e|]; [|reflexivity].
    destruct (decide (k = n)) as [->|Hne].
    + rewrite (decide_True (P := n ∈ n :: ns)) by (apply elem_of_cons; auto).
      destruct (survives n e) eqn:Es; [|reflexivity].
      destruct (decide (n ∈ ns)); [rewrite Es|]; reflexivity.
    + destruct (decide (k ∈ ns)) as [Hin|Hin].
      * rewrite decide_True by (apply elem_of_cons; auto).
        reflexivity.
      * rewrite decide_False; [reflexivity|].
        intros [?|?]%elem_of_cons; contradiction.
Qed.

Lemma elem_of_ReadDir (d : gmap string entry) name e :
  d !! name = Some e -> name ∈ ReadDir d.
Proof.
  intros H. unfold ReadDir. apply list_elem_of_fmap.
  exists (name, e). split; [reflexivity|].
  apply elem_of_map_to_list. exact H.
Qed.

(** C8 as stated fails on a directory entry that [os.Remove] refuses: a
    subdirectory [tempd] that is not empty is still there after the
    constructor, which drops the error. *)
Lemma NewFileMgr_keeps_nonempty_temp_dir_counterexample :
  let d : gmap string entry :=
    <["tempd" := SubDir ["x"]]> (<["keep.db" := RegularFile []]> ∅) in
  String.prefix "temp" "tempd" = true
  /\ exists d',
      NewFileMgr "db" 400 (Dir d) = (Dir d', Ok (mkFileMgr "db" 400 false))
      /\ d' !! "tempd" = Some (SubDir ["x"]).
Proof.
  intros d. split; [reflexivity|].
  eexists. split; [reflexivity|]. vm_compute. reflexivity.
Qed.

(** C8, amended.  Over an existing directory the constructor succeeds with
    [isNew = false] and removes every immediate entry whose name begins with
    [temp] and which is a file or an empty directory; every other entry,
    a non-empty directory of such a name among them, stays as it was.  A
    directory holding the files [temp1.dat], [tempX] and [keep.db] holds
    [keep.db] alone afterwards. *)
Theorem NewFileMgr_removes_temp_entries :
  (forall dbDirectory blocksize (d : gmap string entry),
      exists d',
        NewFileMgr dbDirectory blocksize (Dir d)
        = (Dir d', Ok (mkFileMgr dbDirectory blocksize false))
        /\ forall name,
            d' !! name
            = match d !! name with
              | Some e => if survives name e then Some e else None
              | None => None
              end)
  /\ (forall a b c,
         fst (NewFileMgr "db" 400
                (Dir (<["temp1.dat" := RegularFile a]>
                        (<["tempX" := RegularFile b]>
                           (<["keep.db" := RegularFile c]> ∅)))))
         = Dir (<["keep.db" := RegularFile c]> ∅)).
Proof.
  assert (forall (d : gmap string entry) name,
             remove_temp (ReadDir d) d !! name
             = match d !! name with
               | Some e => if survives name e then Some e else None
               | None => None
               end) as Hsweep.
  { intros d name. rewrite remove_temp_lookup.
    destruct (d !! name) as [e|] eqn:E; [|reflexivity].
    rewrite decide_True by (eapply elem_of_ReadDir; exact E). reflexivity. }
  split.
  - intros dbDirectory blocksize d. eexists. split; [reflexivity|].
    apply Hsweep.
  - intros a b c. cbn [NewFileMgr fst]. apply (f_equal Dir).
    apply map_eq. intros name. rewrite Hsweep.
    destruct (decide (name = "temp1.dat")) as [->|H1];
      [rewrite lookup_insert_eq; reflexivity|].
    rewrite (lookup_insert_ne _ "temp1.dat") by congruence.
    destruct (decide (name = "tempX")) as [->|H2];
      [rewrite lookup_insert_eq; reflexivity|].
    rewrite (lookup_insert_ne _ "tempX") by congruence.
    destruct (decide (name = "keep.db")) as [->|H3].
    + rewrite !lookup_insert_eq. reflexivity.
    + rewrite !lookup_insert_ne, lookup_empty by congruence. reflexivity.
Qed.

Lemma Length_steps_run fm name w : run (Length_steps fm name) w = Length fm name w.
Proof. reflexivity. Qed.

Lemma Append_steps_run fm name w : run (Append_steps fm name) w = Append fm name w.
Proof. reflexivity. Qed.

Lemma Read_steps_run fm blk p w : run (Read_steps fm blk p) w = Read fm blk p w.
Proof.
  unfold Read_steps, Read. destruct (negb _); reflexivity.
Qed.

Lemma Write_steps_run fm blk p w : run (Write_steps fm blk p) w = Write fm blk p w.
Proof.
  unfold Write_steps, Write. destruct (negb _); [reflexivity|].
  cbn [run]. unfold bind.
  destruct (getFile fm (FileName blk) w) as [w1 [f|e|e]]; try reflexivity.
  destruct (Seek f _ w1) as [w2 [z|e|e]]; try reflexivity.
  destruct (Write_ f (buf p) w2) as [w3 [z3|e|e]]; try reflexivity.
  destruct (Sync f w3) as [w4 [[]|e|e]]; reflexivity.
Qed.

Section linearizable.
Context {A : Type}.
Variables (progs : list (prog A)) (w0 : world).

Lemma pool_inv_init : pool_inv progs w0 (init_pool progs w0).
Proof.
  exists [], w0, ∅. split; [reflexivity|].
  split; [|split; [|split; [constructor|]]].
  - intros t. rewrite lookup_empty. split.
    + intros H. apply elem_of_nil in H. contradiction.
    + intros [x H]. discriminate.
  - intros t H. apply elem_of_nil in H. contradiction.
  - cbn. split; [reflexivity|]. split; [reflexivity|].
    intros t. unfold tview. rewrite lookup_empty.
    change (map Ready progs) with (Ready <$> progs).
    rewrite list_lookup_fmap. destruct (progs !! t); reflexivity.
Qed.

Lemma tview_Ready res cur t p :
  tview progs res cur t = Some (Ready p) ->
  progs !! t = Some p /\ res !! t = None.
Proof.
  unfold tview. destruct (progs !! t) as [p0|]; [|discriminate].
  destruct (res !! t); [discriminate|].
  destruct cur as [[h q]|]; [case_decide; [discriminate|]|];
    intros [= ->]; auto.
Qed.

Lemma tview_Running res cur t p :
  tview progs res cur t = Some (Running p) ->
  res !! t = None /\ exists p0, progs !! t = Some p0 /\ cur = Some (t, p).
Proof.
  unfold tview. destruct (progs !! t) as [p0|]; [|discriminate].
  destruct (res !! t); [discriminate|].
  destruct cur as [[h q]|]; [|discriminate].
  case_decide as E; [|discriminate].
  intros [= ->]. subst h. eauto.
Qed.

Lemma tview_holder res h p p0 :
  progs !! h = Some p0 -> res !! h = None ->
  tview progs res (Some (h, p)) h = Some (Running p).
Proof.
  intros Hp Hr. unfold tview. rewrite Hp, Hr, decide_True; reflexivity.
Qed.

Lemma tview_other res cur cur' h p t :
  t <> h -> cur = None \/ (exists q, cur = Some (h, q)) ->
  cur' = None \/ cur' = Some (h, p) ->
  tview progs res cur' t = tview progs res cur t.
Proof.
  intros Hne Hc Hc'. unfold tview.
  destruct (progs !! t); [|reflexivity]. destruct (res !! t); [reflexivity|].
  destruct Hc as [->|[q ->]], Hc' as [->| ->];
    rewrite ?decide_False by exact Hne; reflexivity.
Qed.

(** The holder of the lock makes a step of its body. *)
Lemma pool_inv_advance st done wd res h p p' p0 w' :
  seq_run progs done w0 = (wd, res) ->
  (forall t, t ∈ done <-> is_Some (res !! t)) ->
  (forall t, t ∈ done -> is_Some (progs !! t)) ->
  NoDup done ->
  mu st = Some h -> acquired st = done ++ [h] -> res !! h = None ->
  progs !! h = Some p0 ->
  (forall t, ths st !! t = tview progs res (Some (h, p)) t) ->
  run p' w' = run p0 wd ->
  pool_inv progs w0 (Pool (mu st) w' (<[h := Running p']> (ths st)) (acquired st)).
Proof.
  intros Hseq Hdom Hprog Hnd Hmu Hacq Hres Hp0 Hth Hrun.
  exists done, wd, res. repeat (split; [assumption|]).
  cbn [mu pw ths acquired]. rewrite Hmu.
  split; [exact Hacq|]. split; [exact Hres|].
  exists p', p0. split; [exact Hp0|]. split; [exact Hrun|].
  intros t. destruct (decide (t = h)) as [->|Hne].
  - rewrite list_lookup_insert_eq.
    + symmetry. eapply tview_holder; eassumption.
    + apply lookup_lt_is_Some. rewrite Hth.
      erewrite tview_holder by eassumption. eauto.
  - rewrite list_lookup_insert_ne by congruence. rewrite Hth.
    symmetry. apply (tview_other res _ _ h p'); eauto.
Qed.

Lemma pool_inv_step t st : pool_inv progs w0 st -> pool_inv progs w0 (sched_step t st).
Proof.
  intros (done & wd & res & Hseq & Hdom & Hprog & Hnd & Hmu).
  unfold sched_step.
  destruct (ths st !! t) as [[p|p|r]|] eqn:Et;
    [| |exists done, wd, res; auto..].
  - (* Lock *)
    destruct (mu st) as [h|] eqn:Em; [exists done, wd, res; rewrite Em; auto|].
    destruct Hmu as (Hacq & Hpw & Hth).
    pose proof Et as Et'. rewrite Hth in Et'.
    apply tview_Ready in Et' as (Hp & Hr).
    exists done, wd, res. repeat (split; [assumption|]).
    cbn [mu pw ths acquired].
    split; [rewrite Hacq; reflexivity|]. split; [exact Hr|].
    exists p, p. split; [exact Hp|]. split; [rewrite Hpw; reflexivity|].
    intros t'. destruct (decide (t' = t)) as [->|Hne].
    + rewrite list_lookup_insert_eq
        by (apply lookup_lt_is_Some; rewrite Et; eauto).
      symmetry. eapply tview_holder; eassumption.
    + rewrite list_lookup_insert_ne by congruence. rewrite Hth.
      symmetry. apply (tview_other res _ _ t p); auto.
  - (* a step of the body, or Unlock *)
    destruct (mu st) as [h|] eqn:Em.
    2:{ destruct Hmu as (_ & _ & Hth). rewrite Hth in Et.
        apply tview_Running in Et as (_ & p0 & _ & Hc). discriminate. }
    destruct Hmu as (Hacq & Hres & q & p0 & Hp0 & Hrun & Hth).
    pose proof Et as Et'. rewrite Hth in Et'.
    apply tview_Running in Et' as (_ & p0' & _ & [= -> ->]).
    destruct p as [r|X m k].
    + (* Unlock *)
      cbn [run] in Hrun. unfold lift in Hrun.
      exists (done ++ [t]), (pw st), (<[t := r]> res).
      split; [|split; [|split; [|split]]].
      * unfold seq_run in *. rewrite foldl_app, Hseq. cbn [foldl].
        rewrite Hp0, <- Hrun. reflexivity.
      * intros t'. rewrite elem_of_app, list_elem_of_singleton, Hdom.
        destruct (decide (t' = t)) as [->|Hne].
        -- rewrite lookup_insert_eq. split; eauto.
        -- rewrite lookup_insert_ne by congruence. split; [|auto].
           intros [H|H]; [exact H|contradiction].
      * intros t' [H| ->%list_elem_of_singleton]%elem_of_app; eauto.
      * apply NoDup_app. split; [exact Hnd|]. split; [|apply NoDup_singleton].
        intros x Hx ->%list_elem_of_singleton.
        apply Hdom in Hx as [y Hy]. congruence.
      * cbn [mu pw ths acquired]. split; [exact Hacq|]. split; [reflexivity|].
        intros t'. destruct (decide (t' = t)) as [->|Hne].
        -- rewrite list_lookup_insert_eq
             by (apply lookup_lt_is_Some; rewrite Et; eauto).
           unfold tview. rewrite Hp0, lookup_insert_eq. reflexivity.
        -- rewrite list_lookup_insert_ne by congruence. rewrite Hth.
           unfold tview. rewrite lookup_insert_ne by congruence.
           destruct (progs !! t'); [|reflexivity].
           destruct (res !! t'); [reflexivity|].
           rewrite decide_False by exact Hne. reflexivity.
    + (* a call of the body *)
      cbn [run] in Hrun.
      destruct (m (pw st)) as [w' [x|e|e]] eqn:Em';
        rewrite <- Em;
        eapply pool_inv_advance; eauto.
Qed.

Lemma pool_inv_run sched : forall st, pool_inv progs w0 st -> pool_inv progs w0 (run_sched sched st).
Proof.
  induction sched as [|t sched IH]; intros st Hst; [exact Hst|].
  apply IH, pool_inv_step, Hst.
Qed.

(** Every schedule that lets all goroutines return has run their bodies
    one after the other, in the order in which they got the lock. *)
Lemma linearizable sched :
  let st := run_sched sched (init_pool progs w0) in
  all_finished st = true ->
  mu st = None
  /\ acquired st ≡ₚ seq 0 (length progs)
  /\ exists res,
      seq_run progs (acquired st) w0 = (pw st, res)
      /\ forall t, ths st !! t = Finished <$> res !! t.
Proof.
  intros st Hfin.
  destruct (pool_inv_run sched _ pool_inv_init)
    as (done & wd & res & Hseq & Hdom & Hprog & Hnd & Hmu).
  fold st in Hmu.
  assert (forall t ts, ths st !! t = Some ts -> is_finished ts = true) as Hall.
  { intros t ts Ht. unfold all_finished in Hfin.
    rewrite forallb_forall in Hfin. apply Hfin.
    apply list_elem_of_In, list_elem_of_lookup. eauto. }
  destruct (mu st) as [h|].
  { exfalso. destruct Hmu as (_ & Hres & q & p0 & Hp0 & _ & Hth).
    specialize (Hall h (Running q)). rewrite Hth in Hall.
    erewrite tview_holder in Hall by eassumption.
    specialize (Hall eq_refl). discriminate. }
  destruct Hmu as (Hacq & Hpw & Hth).
  assert (forall t, ths st !! t = Finished <$> res !! t) as Hres.
  { intros t. rewrite Hth. unfold tview.
    destruct (progs !! t) as [p0|] eqn:Ep.
    - destruct (res !! t) as [r|] eqn:Er; [reflexivity|].
      specialize (Hall t (Ready p0)). rewrite Hth in Hall. unfold tview in Hall.
      rewrite Ep, Er in Hall. specialize (Hall eq_refl). discriminate.
    - destruct (res !! t) as [r|] eqn:Er; [|reflexivity].
      assert (t ∈ done) as Hin by (apply Hdom; eauto).
      apply Hprog in Hin as [p Hp]. congruence. }
  split; [reflexivity|]. split.
  - rewrite Hacq. apply NoDup_Permutation; [exact Hnd|apply NoDup_seq|].
    intros t. rewrite elem_of_seq, Hdom. split.
    + intros [r Hr]. assert (t ∈ done) as Hin by (apply Hdom; eauto).
      apply Hprog in Hin. apply lookup_lt_is_Some in Hin. lia.
    + intros [_ Hlt]. cbn in Hlt.
      destruct (lookup_lt_is_Some_2 progs t Hlt) as [p0 Ep].
      specialize (Hth t). unfold tview in Hth. rewrite Ep in Hth.
      destruct (res !! t) as [r|] eqn:Er; [eauto|].
      specialize (Hall t _ Hth). discriminate.
  - exists res. rewrite Hacq, Hpw. split; [exact Hseq|exact Hres].
Qed.
End linearizable.

(** *** No deadlock: every schedule can be continued until all have returned *)

Lemma run_sched_app {A} (s1 s2 : list nat) (st : pool A) :
  run_sched (s1 ++ s2) st = run_sched s2 (run_sched s1 st).
Proof. unfold run_sched. apply foldl_app. Qed.

Lemma run_sched_cons {A} t (s : list nat) (st : pool A) :
  run_sched (t :: s) st = run_sched s (sched_step t st).
Proof. reflexivity. Qed.

(** The holder of the lock, scheduled alone, runs its body to the end and
    releases the lock. *)
Lemma holder_finishes {A} (p : prog A) : forall (st : pool A) h,
  ths st !! h = Some (Running p) ->
  exists n w' r,
    run p (pw st) = (w', r)
    /\ run_sched (replicate n h) st
       = Pool None w' (<[h := Finished r]> (ths st)) (acquired st).
Proof.
  induction p as [r|X m k IH]; intros st h Hh.
  - exists 1%nat, (pw st), r. split; [reflexivity|].
    cbn. unfold sched_step. rewrite Hh. reflexivity.
  - assert (h < length (ths st))%nat as Hlt
      by (apply lookup_lt_is_Some; eauto).
    cbn [run].
    destruct (m (pw st)) as [w1 [x|e|e]] eqn:Em.
    + destruct (IH x (Pool (mu st) w1 (<[h := Running (k x)]> (ths st))
                        (acquired st)) h)
        as (n & w' & r & Hrun & Hsched).
      { cbn. apply list_lookup_insert_eq. exact Hlt. }
      exists (S n), w', r. split; [exact Hrun|].
      cbn [replicate]. rewrite run_sched_cons.
      replace (sched_step h st)
        with (Pool (mu st) w1 (<[h := Running (k x)]> (ths st)) (acquired st))
        by (unfold sched_step; rewrite Hh, Em; reflexivity).
      cbn [ths acquired] in Hsched. rewrite list_insert_insert_eq in Hsched.
      exact Hsched.
    + exists 2%nat, w1, (Err e). split; [reflexivity|].
      cbn [replicate]. rewrite !run_sched_cons.
      replace (sched_step h st)
        with (Pool (mu st) w1 (<[h := Running (Return (Err e))]> (ths st))
                (acquired st))
        by (unfold sched_step; rewrite Hh, Em; reflexivity).
      unfold sched_step. cbn [ths mu pw acquired run_sched foldl].
      rewrite list_lookup_insert_eq by exact Hlt.
      rewrite list_insert_insert_eq. reflexivity.
    + exists 2%nat, w1, (Panic e). split; [reflexivity|].
      cbn [replicate]. rewrite !run_sched_cons.
      replace (sched_step h st)
        with (Pool (mu st) w1 (<[h := Running (Return (Panic e))]> (ths st))
                (acquired st))
        by (unfold sched_step; rewrite Hh, Em; reflexivity).
      unfold sched_step. cbn [ths mu pw acquired run_sched foldl].
      rewrite list_lookup_insert_eq by exact Hlt.
      rewrite list_insert_insert_eq. reflexivity.
Qed.

(** With the lock free and nobody inside a body, the goroutines of [ids] can
    be run to their return one after the other. *)
Lemma can_finish_from_rest {A} (ids : list nat) : forall st : pool A,
  mu st = None -> (forall t p, ths st !! t <> Some (Running p)) ->
  exists sched,
    let st' := run_sched sched st in
    mu st' = None
    /\ (forall t p, ths st' !! t <> Some (Running p))
    /\ length (ths st') = length (ths st)
    /\ (forall t, t ∈ ids -> (t < length (ths st))%nat ->
          exists r, ths st' !! t = Some (Finished r))
    /\ (forall t r, ths st !! t = Some (Finished r) ->
          ths st' !! t = Some (Finished r)).
Proof.
  induction ids as [|t ids IH]; intros st Hmu Hcalm.
  - exists []. cbn. repeat split; auto.
    intros t H. apply elem_of_nil in H. contradiction.
  - destruct (ths st !! t) as [[p|p|r]|] eqn:Et.
    + (* t takes the lock and runs its body *)
      set (st1 := Pool (Some t) (pw st) (<[t := Running p]> (ths st))
                    (acquired st ++ [t])).
      assert (t < length (ths st))%nat as Hlt
        by (apply lookup_lt_is_Some; eauto).
      assert (sched_step t st = st1) as Hlock
        by (unfold sched_step; rewrite Et, Hmu; reflexivity).
      destruct (holder_finishes p st1 t) as (n & w' & r & _ & Hrun).
      { cbn. apply list_lookup_insert_eq. exact Hlt. }
      cbn [ths acquired st1] in Hrun. rewrite list_insert_insert_eq in Hrun.
      set (st2 := Pool None w' (<[t := Finished r]> (ths st))
                    (acquired st ++ [t])) in *.
      destruct (IH st2) as (sched & Hmu' & Hcalm' & Hlen & Hids & Hkeep).
      { reflexivity. }
      { intros t' q. cbn. destruct (decide (t' = t)) as [->|Hne].
        - rewrite list_lookup_insert_eq by exact Hlt. discriminate.
        - rewrite list_lookup_insert_ne by congruence. apply Hcalm. }
      exists (t :: replicate n t ++ sched).
      cbv zeta. rewrite run_sched_cons, Hlock, run_sched_app, Hrun.
      cbn [ths st2] in Hlen, Hids, Hkeep. rewrite length_insert in Hlen, Hids.
      split; [exact Hmu'|]. split; [exact Hcalm'|]. split; [exact Hlen|].
      split.
      * intros t' [->|Hin]%elem_of_cons Hlt'.
        -- exists r. apply Hkeep. apply list_lookup_insert_eq. exact Hlt.
        -- apply Hids; assumption.
      * intros t' r' Hf. apply Hkeep.
        rewrite list_lookup_insert_ne; [exact Hf|]. congruence.
    + exfalso. exact (Hcalm _ _ Et).
    + destruct (IH st Hmu Hcalm) as (sched & Hmu' & Hcalm' & Hlen & Hids & Hkeep).
      exists sched. repeat split; auto.
      intros t' [->|Hin]%elem_of_cons Hlt'; eauto.
    + destruct (IH st Hmu Hcalm) as (sched & Hmu' & Hcalm' & Hlen & Hids & Hkeep).
      exists sched. repeat split; auto.
      intros t' [->|Hin]%elem_of_cons Hlt'; [|eauto].
      apply lookup_ge_None in Et. lia.
Qed.

(** However far a schedule has gone, it can be continued so that every
    goroutine returns: the lock never blocks all of them for good. *)
Lemma schedule_can_complete {A} (progs : list (prog A)) w0 sched :
  exists more,
    all_finished (run_sched (sched ++ more) (init_pool progs w0)) = true.
Proof.
  set (st := run_sched sched (init_pool progs w0)).
  destruct (pool_inv_run progs w0 sched _ (pool_inv_init progs w0))
    as (done & wd & res & _ & _ & _ & _ & Hmu).
  fold st in Hmu.
  assert (exists s1, let st1 := run_sched s1 st in
                     mu st1 = None
                     /\ (forall t p, ths st1 !! t <> Some (Running p)))
    as (s1 & Hmu1 & Hcalm1).
  { destruct (mu st) as [h|] eqn:Em.
    - destruct Hmu as (_ & Hres & p & p0 & Hp0 & _ & Hth).
      assert (ths st !! h = Some (Running p)) as Hh
        by (rewrite Hth; eapply tview_holder; eassumption).
      destruct (holder_finishes p st h Hh) as (n & w' & r & _ & Hrun).
      exists (replicate n h). cbn zeta. rewrite Hrun. cbn [mu ths].
      split; [reflexivity|].
      intros t q. destruct (decide (t = h)) as [->|Hne].
      + rewrite list_lookup_insert_eq
          by (apply lookup_lt_is_Some; eauto). discriminate.
      + rewrite list_lookup_insert_ne by congruence. rewrite Hth.
        intros H. apply tview_Running in H as (_ & _ & _ & [= ? _]).
        congruence.
    - exists []. cbn. split; [exact Em|].
      destruct Hmu as (_ & _ & Hth). intros t q. rewrite Hth.
      intros H. apply tview_Running in H as (_ & _ & _ & H). discriminate. }
  destruct (can_finish_from_rest (seq 0 (length (ths (run_sched s1 st))))
              (run_sched s1 st) Hmu1 Hcalm1)
    as (s2 & _ & _ & Hlen & Hids & _).
  exists (s1 ++ s2). rewrite !run_sched_app. fold st.
  unfold all_finished. apply forallb_forall. intros ts Hin.
  apply list_elem_of_In, list_elem_of_lookup in Hin as (t & Ht).
  assert (t < length (ths (run_sched s1 st)))%nat as Hlt
    by (rewrite <- Hlen; apply lookup_lt_is_Some; eauto).
  destruct (Hids t) as (r & Hr); [apply elem_of_seq; lia|exact Hlt|].
  rewrite Hr in Ht. injection Ht as <-. reflexivity.
Qed.

(** [Append] bodies run one after the other: the i-th to run gets block
    [j + i] of a file that held [j] zero blocks. *)
Lemma seq_appends fm name (N : nat) (order : list nat) :
  forall (j : Z) w (res0 : gmap nat (result BlockId)),
    world_ok w -> 0 < blocksize fm -> 0 <= j ->
    contents w name = Some (replicate (Z.to_nat (j * blocksize fm)) x00) ->
    (j + Z.of_nat (length order)) * blocksize fm <= MaxInt64 ->
    (forall t, t ∈ order -> (t < N)%nat) -> NoDup order ->
    exists w' res,
      foldl (fun '(w, res) t =>
               match replicate N (Append_steps fm name) !! t with
               | Some p => let (w', r) := run p w in (w', <[t := r]> res)
               | None => (w, res)
               end) (w, res0) order = (w', res)
      /\ world_ok w'
      /\ contents w' name
         = Some (replicate
                   (Z.to_nat ((j + Z.of_nat (length order)) * blocksize fm)) x00)
      /\ (forall (i : nat) t, order !! i = Some t ->
            res !! t = Some (Ok (NewBlockId name (j + Z.of_nat i))))
      /\ (forall t, t ∉ order -> res !! t = res0 !! t).
Proof.
  induction order as [|t order IH]; intros j w res0 Hok Hbs Hj Hc Hmax Hlt Hnd.
  - exists w, res0. split; [reflexivity|]. split; [exact Hok|].
    split; [rewrite Hc; do 3 f_equal; simpl; lia|].
    split; [intros i t H; discriminate|auto].
  - cbn [foldl].
    rewrite lookup_replicate_2 by (apply Hlt, elem_of_cons; auto).
    rewrite Append_steps_run.
    set (data := replicate (Z.to_nat (j * blocksize fm)) x00) in *.
    assert (Z.of_nat (length data) = j * blocksize fm) as Hlen
      by (subst data; rewrite length_replicate; nia).
    assert (Z.of_nat (length data) / blocksize fm = j) as Hdiv
      by (rewrite Hlen; apply Z.div_mul; lia).
    cbn [length] in Hmax.
    destruct (Append_ok fm w name data Hok Hbs Hc) as (w1 & Happ & Hok1 & Hd1 & _).
    { rewrite Hdiv. nia. }
    rewrite Hdiv in Happ, Hd1. rewrite Happ.
    assert (take (Z.to_nat (j * blocksize fm)) data
            ++ replicate (Z.to_nat (blocksize fm)) x00
            = replicate (Z.to_nat ((j + 1) * blocksize fm)) x00) as Hnew.
    { subst data. rewrite take_ge by (rewrite length_replicate; lia).
      rewrite <- replicate_add. f_equal. nia. }
    rewrite Hnew in Hd1.
    apply NoDup_cons in Hnd as (Hnin & Hnd).
    destruct (IH (j + 1) w1 (<[t := Ok (NewBlockId name j)]> res0) Hok1 Hbs
                ltac:(lia) (contents_lookup _ _ _ Hd1))
      as (w' & res & Hfold & Hok' & Hc' & Hidx & Hrest); [..|exact Hnd|].
    { replace (j + 1 + Z.of_nat (length order))
        with (j + Z.of_nat (S (length order))) by lia. exact Hmax. }
    { intros t' Ht'. apply Hlt, elem_of_cons. auto. }
    exists w', res. split; [exact Hfold|]. split; [exact Hok'|].
    split; [|split].
    + rewrite Hc'. do 3 f_equal. cbn [length]. lia.
    + intros [|i] t' Hi.
      * injection Hi as <-. rewrite Hrest by exact Hnin.
        rewrite lookup_insert_eq. do 3 f_equal. lia.
      * rewrite (Hidx i t' Hi). do 3 f_equal. lia.
    + intros t' Ht'. apply not_elem_of_cons in Ht' as (Hne & Ht').
      rewrite Hrest by exact Ht'. apply lookup_insert_ne. congruence.
Qed.



(** * Further properties *)

(** ** Fields of a page *)

Lemma be_value_ext (l l' : list byte) :
  (forall i, (i < 4)%nat -> l !! i = l' !! i) -> be_value l = be_value l'.
Proof.
  intros H. unfold be_value, byte_nth.
  rewrite (H 0%nat), (H 1%nat), (H 2%nat), (H 3%nat) by lia. reflexivity.
Qed.

Lemma agree_on_window (l l' : list byte) a n m i :
  agree_on l l' a n -> (i + m <= n)%nat ->
  take m (drop (a + i) l) = take m (drop (a + i) l').
Proof.
  intros H Hfit. apply list_eq. intros k.
  destruct (decide (k < m)%nat) as [Hk|Hk].
  - rewrite !lookup_take_lt, !lookup_drop by lia. apply H. lia.
  - rewrite !lookup_take_ge by lia. reflexivity.
Qed.

Lemma agree_on_be_value (l l' : list byte) a n i :
  agree_on l l' a n -> (i + 4 <= n)%nat ->
  be_value (drop (a + i) l) = be_value (drop (a + i) l').
Proof.
  intros H Hfit. apply be_value_ext. intros k Hk.
  rewrite !lookup_drop. apply H. lia.
Qed.

Lemma splice_outside (arr : list byte) i data k :
  (i + length data <= length arr)%nat ->
  (k < i \/ i + length data <= k)%nat ->
  splice arr i data !! k = arr !! k.
Proof.
  intros Hfit Hk. rewrite lookup_splice by exact Hfit.
  repeat case_decide; try reflexivity; lia.
Qed.

(** What [GetInt] and [GetBytes] return is read off the bytes of their
    field. *)
Lemma GetInt_agree h h' p offset :
  valid h (buf p) -> valid h' (buf p) -> 0 <= offset ->
  offset + 4 <= len (buf p) ->
  agree_on (bytes_of h (buf p)) (bytes_of h' (buf p)) (Z.to_nat offset) 4 ->
  GetInt p offset h' = (h', snd (GetInt p offset h)).
Proof.
  intros Hv Hv' Hlo Hhi Hag.
  rewrite !GetInt_ok by assumption. cbn [snd]. do 2 f_equal.
  pose proof (agree_on_be_value _ _ _ 4 0 Hag ltac:(lia)) as H.
  rewrite !Nat.add_0_r in H. symmetry. exact H.
Qed.

Lemma GetBytes_agree h h' p offset :
  let L := be_value (drop (Z.to_nat offset) (bytes_of h (buf p))) in
  valid h (buf p) -> valid h' (buf p) -> length h' = length h ->
  0 <= offset -> offset + 4 + L <= len (buf p) ->
  agree_on (bytes_of h (buf p)) (bytes_of h' (buf p))
    (Z.to_nat offset) (4 + Z.to_nat L) ->
  GetBytes p offset h'
  = (h' ++ [take (Z.to_nat L)
              (drop (Z.to_nat offset + 4) (bytes_of h (buf p)))],
     Ok (Slice (length h) 0 (Z.to_nat L))).
Proof.
  intros L Hv Hv' Hlen Hlo Hhi Hag.
  pose proof (be_value_range (drop (Z.to_nat offset) (bytes_of h (buf p))))
    as HL. fold L in HL.
  assert (be_value (drop (Z.to_nat offset) (bytes_of h' (buf p))) = L) as HL'.
  { pose proof (agree_on_be_value _ _ _ _ 0 Hag ltac:(lia)) as H.
    rewrite !Nat.add_0_r in H. symmetry. exact H. }
  rewrite GetBytes_ok by (try assumption; rewrite ?HL'; lia).
  rewrite HL', Hlen. do 3 f_equal.
  symmetry. apply (agree_on_window _ _ _ _ _ 4 Hag). lia.
Qed.

(** A call of [GetBytes] that returns found its field inside the page. *)
Lemma GetBytes_Ok_inv h p offset h2 out :
  let L := be_value (drop (Z.to_nat offset) (bytes_of h (buf p))) in
  valid h (buf p) -> 0 <= offset -> GetBytes p offset h = (h2, Ok out) ->
  offset + 4 + L <= len (buf p)
  /\ out = Slice (length h) 0 (Z.to_nat L)
  /\ h2 = h ++ [take (Z.to_nat L)
                  (drop (Z.to_nat offset + 4) (bytes_of h (buf p)))].
Proof.
  intros L Hv Hlo Hget0.
  pose proof Hget0 as Hget. unfold GetBytes in Hget.
  destruct (int_add offset 4 >? len (buf p)) eqn:Eg; [discriminate|].
  pose proof (valid_len _ _ Hv) as Hl. unfold MaxInt64 in Hl.
  assert (offset + 4 <= len (buf p)) as Hhdr.
  { unfold int_add in Eg. rewrite Z.gtb_ltb in Eg. apply Z.ltb_ge in Eg.
    destruct (Z.le_gt_cases (offset + 4) (len (buf p))) as [?|Hgt]; [lia|].
    exfalso. unfold bind, lift, slice_from in Hget.
    destruct ((offset <? 0) || (len (buf p) <? offset)); [discriminate|].
    unfold Uint32, panic, len in Hget, Hgt. cbn [s_len] in Hget.
    replace (Z.of_nat (s_len (buf p) - Z.to_nat offset) <? 4) with true
      in Hget by (symmetry; apply Z.ltb_lt; lia).
    discriminate. }
  clear Hget. rename Hget0 into Hget.
  pose proof (be_value_range (drop (Z.to_nat offset) (bytes_of h (buf p))))
    as HL. fold L in HL.
  assert (offset + 4 + L <= len (buf p)) as HhiL.
  { destruct (Z.le_gt_cases (offset + 4 + L) (len (buf p))) as [?|Hgt];
      [lia|exfalso].
    revert Hget. unfold GetBytes, int_add.
    rewrite !(wrap64_small (offset + 4)) by lia. rewrite gtb_false by lia.
    unfold bind, lift. rewrite slice_from_ok by lia.
    unfold Uint32. unfold len at 1. cbn [s_len].
    replace (_ <? 4) with false
      by (symmetry; apply Z.ltb_ge; unfold len in *; lia).
    rewrite bytes_of_tail by (unfold len in *; lia). fold L.
    destruct (Z.lt_ge_cases (offset + 4 + L) (2 ^ 63)).
    - rewrite wrap64_small by lia. rewrite gtb_true by lia. discriminate.
    - assert (wrap64 (offset + 4 + L) = offset + 4 + L - 2 ^ 64) as ->.
      { unfold wrap64.
        replace (offset + 4 + L + 2 ^ 63)
          with (offset + 4 + L - 2 ^ 63 + 1 * 2 ^ 64) by lia.
        rewrite Z.mod_add, Z.mod_small by lia. lia. }
      rewrite gtb_false by lia. unfold make_bytes.
      replace (L <? 0) with false by (symmetry; apply Z.ltb_ge; lia).
      unfold slice_range.
      replace (offset + 4 + L - 2 ^ 64 <? offset + 4) with true
        by (symmetry; apply Z.ltb_lt; lia).
      rewrite orb_true_r. discriminate. }
  rewrite GetBytes_ok in Hget by (auto; fold L; lia). fold L in Hget.
  injection Hget as <- <-. auto.
Qed.

(** A field read by [GetBytes] is read alike from a heap that agrees on
    it. *)
Lemma GetBytes_frame h h' p offset h2 out :
  valid h (buf p) -> valid h' (buf p) -> length h' = length h ->
  0 <= offset -> GetBytes p offset h = (h2, Ok out) ->
  agree_on (bytes_of h (buf p)) (bytes_of h' (buf p))
    (Z.to_nat offset) (4 + s_len out) ->
  exists h2',
    GetBytes p offset h' = (h2', Ok out)
    /\ bytes_of h2' out = bytes_of h2 out.
Proof.
  intros Hv Hv' Hlen Hlo Hget Hag.
  destruct (GetBytes_Ok_inv h p offset h2 out Hv Hlo Hget) as (HhiL & -> & ->).
  set (L := be_value (drop (Z.to_nat offset) (bytes_of h (buf p)))) in *.
  pose proof (be_value_range (drop (Z.to_nat offset) (bytes_of h (buf p))))
    as HL. fold L in HL.
  pose proof (bytes_of_length _ _ Hv) as Hpl.
  cbn [s_len] in Hag.
  eexists. split.
  - apply (GetBytes_agree h h' p offset); auto.
  - fold L. cbv zeta.
    assert (length (take (Z.to_nat L)
                      (drop (Z.to_nat offset + 4) (bytes_of h (buf p))))
            = Z.to_nat L) as Hdl.
    { rewrite length_take, length_drop. unfold len in *. lia. }
    rewrite <- Hdl at 2 4. rewrite <- Hlen at 1. rewrite !bytes_of_fresh.
    reflexivity.
Qed.

(** X1.  [SetInt] writes the four bytes of its field and no other byte of
    the page: every byte outside [offset, offset + 4) is as before, and so
    is what [GetInt] and [GetBytes] return at any field that does not
    overlap it. *)
Theorem SetInt_leaves_other_fields h p offset v :
  valid h (buf p) -> 0 <= offset -> offset + 4 <= len (buf p) ->
  exists h',
    SetInt p offset v h = (h', Ok tt)
    /\ (forall k, (k < Z.to_nat offset \/ Z.to_nat offset + 4 <= k)%nat ->
          bytes_of h' (buf p) !! k = bytes_of h (buf p) !! k)
    /\ (forall offset',
          0 <= offset' -> offset' + 4 <= len (buf p) ->
          offset' + 4 <= offset \/ offset + 4 <= offset' ->
          GetInt p offset' h' = (h', snd (GetInt p offset' h)))
    /\ (forall offset' h2 out,
          0 <= offset' -> GetBytes p offset' h = (h2, Ok out) ->
          offset' + 4 + len out <= offset \/ offset + 4 <= offset' ->
          exists h2',
            GetBytes p offset' h' = (h2', Ok out)
            /\ bytes_of h2' out = bytes_of h2 out).
Proof.
  intros Hv Hlo Hhi.
  destruct (SetInt_ok h p offset Hv Hlo Hhi v) as (h' & Hset & Hb & Hlen & Hv' & _).
  pose proof (bytes_of_length _ _ Hv) as Hpl.
  assert (forall k, (k < Z.to_nat offset \/ Z.to_nat offset + 4 <= k)%nat ->
                    bytes_of h' (buf p) !! k = bytes_of h (buf p) !! k) as Hout.
  { intros k Hk. rewrite Hb. apply splice_outside; [|exact Hk].
    unfold len in *. simpl. lia. }
  exists h'. split; [exact Hset|]. split; [exact Hout|]. split.
  - intros offset' Hlo' Hhi' Hdis. apply GetInt_agree; auto.
    intros k Hk. symmetry. apply Hout. lia.
  - intros offset' h2 out Hlo' Hget Hdis.
    apply (GetBytes_frame h h' p offset' h2 out); auto.
    intros k Hk. symmetry. apply Hout. unfold len in Hdis. lia.
Qed.

Lemma SetInt_leaves_other_fields_witness :
  valid heap8 (buf page8) /\ 0 <= 4 /\ 4 + 4 <= len (buf page8)
  /\ exists h',
      SetInt page8 4 7 heap8 = (h', Ok tt)
      /\ (forall k, (k < Z.to_nat 4 \/ Z.to_nat 4 + 4 <= k)%nat ->
            bytes_of h' (buf page8) !! k = bytes_of heap8 (buf page8) !! k)
      /\ (forall offset',
            0 <= offset' -> offset' + 4 <= len (buf page8) ->
            offset' + 4 <= 4 \/ 4 + 4 <= offset' ->
            GetInt page8 offset' h' = (h', snd (GetInt page8 offset' heap8)))
      /\ (forall offset' h2 out,
            0 <= offset' -> GetBytes page8 offset' heap8 = (h2, Ok out) ->
            offset' + 4 + len out <= 4 \/ 4 + 4 <= offset' ->
            exists h2',
              GetBytes page8 offset' h' = (h2', Ok out)
              /\ bytes_of h2' out = bytes_of h2 out).
Proof.
  split; [exact valid_page8|]. split; [lia|]. split; [vm_compute; discriminate|].
  apply (SetInt_leaves_other_fields heap8 page8 4 7 valid_page8).
  - lia.
  - vm_compute; discriminate.
Defined.

(** X2.  [SetBytes] writes the header and the payload of its field and no
    other byte of the page: every byte outside
    [offset, offset + 4 + len(b)) is as before, and so is what [GetInt] and
    [GetBytes] return at any field that does not overlap it. *)
Theorem SetBytes_leaves_other_fields h p offset b :
  valid h (buf p) -> valid h b -> s_arr b <> s_arr (buf p) ->
  0 <= offset -> offset + 4 + len b <= len (buf p) ->
  exists h',
    SetBytes p offset b h = (h', Ok tt)
    /\ (forall k, (k < Z.to_nat offset \/ Z.to_nat offset + 4 + s_len b <= k)%nat ->
          bytes_of h' (buf p) !! k = bytes_of h (buf p) !! k)
    /\ (forall offset',
          0 <= offset' -> offset' + 4 <= len (buf p) ->
          offset' + 4 <= offset \/ offset + 4 + len b <= offset' ->
          GetInt p offset' h' = (h', snd (GetInt p offset' h)))
    /\ (forall offset' h2 out,
          0 <= offset' -> GetBytes p offset' h = (h2, Ok out) ->
          offset' + 4 + len out <= offset \/ offset + 4 + len b <= offset' ->
          exists h2',
            GetBytes p offset' h' = (h2', Ok out)
            /\ bytes_of h2' out = bytes_of h2 out).
Proof.
  intros Hv Hb Hne Hlo Hhi.
  destruct (SetBytes_ok h p offset Hv Hlo b Hb Hne Hhi)
    as (h' & Hset & Hbytes & Hlen & Hv' & _).
  pose proof (bytes_of_length _ _ Hv) as Hpl.
  pose proof (bytes_of_length _ _ Hb) as Hbl.
  assert (forall k, (k < Z.to_nat offset \/ Z.to_nat offset + 4 + s_len b <= k)%nat ->
                    bytes_of h' (buf p) !! k = bytes_of h (buf p) !! k) as Hout.
  { intros k Hk. rewrite Hbytes.
    rewrite splice_outside.
    - apply splice_outside; [unfold len in *; simpl; lia|simpl; lia].
    - rewrite length_splice by (unfold len in *; simpl; lia).
      unfold len in *. lia.
    - lia. }
  exists h'. split; [exact Hset|]. split; [exact Hout|]. split.
  - intros offset' Hlo' Hhi' Hdis. apply GetInt_agree; auto.
    intros k Hk. symmetry. apply Hout. unfold len in Hdis. lia.
  - intros offset' h2 out Hlo' Hget Hdis.
    apply (GetBytes_frame h h' p offset' h2 out); auto.
    intros k Hk. symmetry. apply Hout. unfold len in Hdis. lia.
Qed.

Lemma SetBytes_leaves_other_fields_witness :
  let h : heap := [replicate 16 x00; map byte_of_Z [7; 8; 9]] in
  let p := mkPage (Slice 0 0 16) in
  let b := Slice 1 0 3 in
  valid h (buf p) /\ valid h b /\ s_arr b <> s_arr (buf p)
  /\ 0 <= 4 /\ 4 + 4 + len b <= len (buf p)
  /\ exists h',
      SetBytes p 4 b h = (h', Ok tt)
      /\ (forall k, (k < Z.to_nat 4 \/ Z.to_nat 4 + 4 + s_len b <= k)%nat ->
            bytes_of h' (buf p) !! k = bytes_of h (buf p) !! k)
      /\ (forall offset',
            0 <= offset' -> offset' + 4 <= len (buf p) ->
            offset' + 4 <= 4 \/ 4 + 4 + len b <= offset' ->
            GetInt p offset' h' = (h', snd (GetInt p offset' h)))
      /\ (forall offset' h2 out,
            0 <= offset' -> GetBytes p offset' h = (h2, Ok out) ->
            offset' + 4 + len out <= 4 \/ 4 + 4 + len b <= offset' ->
            exists h2',
              GetBytes p offset' h' = (h2', Ok out)
              /\ bytes_of h2' out = bytes_of h2 out).
Proof.
  intros h p b.
  assert (valid h (buf p)) as Hp by (unfold valid, MaxInt64; simpl; lia).
  assert (valid h b) as Hb by (unfold valid, MaxInt64; simpl; lia).
  assert (s_arr b <> s_arr (buf p)) as Hne by (simpl; lia).
  split; [exact Hp|]. split; [exact Hb|]. split; [exact Hne|].
  split; [lia|]. split; [vm_compute; discriminate|].
  apply (SetBytes_leaves_other_fields h p 4 b Hp Hb Hne).
  - lia.
  - vm_compute; discriminate.
Defined.

(** [SetString] allocates the bytes of the string and writes them as
    [SetBytes] does. *)
Lemma SetString_ok h p offset s :
  let data := list_byte_of_string s in
  valid h (buf p) -> 0 <= offset ->
  offset + 4 + Z.of_nat (String.length s) <= len (buf p) ->
  exists h1,
    SetString p offset s h = (h1, Ok tt)
    /\ valid h1 (buf p)
    /\ length h1 = S (length h)
    /\ bytes_of h1 (buf p)
       = splice (splice (bytes_of h (buf p)) (Z.to_nat offset)
                   (be32 (uint32 (Z.of_nat (String.length s)))))
           (Z.to_nat offset + 4) data
    /\ (forall t, valid h t -> s_arr t <> s_arr (buf p) ->
          bytes_of h1 t = bytes_of h t).
Proof.
  intros data Hv Hlo Hhi.
  pose proof (valid_len _ _ Hv) as Hl.
  set (b := Slice (length h) 0 (length data)).
  assert (length data = String.length s) as Hdl
    by apply length_list_byte_of_string.
  assert (bytes_of (h ++ [data]) b = data) as Hbd by apply bytes_of_fresh.
  assert (valid (h ++ [data]) b) as Hb.
  { unfold valid, array_of. cbn [b s_arr s_lo s_len].
    rewrite length_app, lookup_app_r, Nat.sub_diag by lia. simpl. lia. }
  assert (s_arr b <> s_arr (buf p)) as Hne
    by (destruct Hv as (Ha & _); cbn [b s_arr]; lia).
  assert (len b = Z.of_nat (String.length s)) as Hlb
    by (unfold len; cbn [b s_len]; lia).
  destruct (SetBytes_ok (h ++ [data]) p offset (valid_app _ [data] _ Hv) Hlo
              b Hb Hne ltac:(lia))
    as (h1 & Hset & Hbytes & Hlen & Hv1 & Hfr).
  exists h1. split; [|split; [|split; [|split]]].
  - unfold SetString, bind, bytes_of_string. fold data. fold b.
    rewrite Hset. reflexivity.
  - apply Hv1, valid_app, Hv.
  - rewrite Hlen, length_app. simpl. lia.
  - rewrite Hbytes, Hbd, Hlb.
    rewrite bytes_of_app by (destruct Hv as (Ha & _); exact Ha). reflexivity.
  - intros t Ht Hnt. rewrite Hfr by exact Hnt.
    apply bytes_of_app. destruct Ht as (Ha & _). exact Ha.
Qed.

Lemma MaxLength_small n : 0 <= n <= MaxInt64 - 4 -> MaxLength n = 4 + n.
Proof.
  intros Hn. unfold MaxLength, int_add, int_mul, bytesPerChar, MaxInt64 in *.
  rewrite Z.mul_1_r, !wrap64_small by (rewrite ?wrap64_small; lia).
  reflexivity.
Qed.

(** X3.  [MaxLength] is the room a string takes in a page: an integer
    written at [pos + MaxLength(len(s))] lies just behind the string written
    at [pos], and both are read back, the string as it was written and the
    integer modulo 2^32. *)
Theorem MaxLength_places_next_field h p pos s v :
  let n := Z.of_nat (String.length s) in
  let pos2 := int_add pos (MaxLength n) in
  valid h (buf p) -> 0 <= pos -> pos + 4 + n + 4 <= len (buf p) ->
  n < 2 ^ 32 ->
  pos2 = pos + 4 + n
  /\ exists h1 h2 h3,
      SetString p pos s h = (h1, Ok tt)
      /\ SetInt p pos2 v h1 = (h2, Ok tt)
      /\ GetInt p pos2 h2 = (h2, Ok (v mod 2 ^ 32))
      /\ GetString p pos h2 = (h3, Ok s).
Proof.
  intros n pos2 Hv Hlo Hhi Hn.
  pose proof (valid_len _ _ Hv) as Hl. unfold MaxInt64 in Hl.
  assert (pos2 = pos + 4 + n) as Hpos2.
  { subst pos2. rewrite MaxLength_small by (unfold MaxInt64; lia).
    unfold int_add. rewrite wrap64_small by lia. lia. }
  split; [exact Hpos2|]. rewrite Hpos2.
  destruct (SetString_ok h p pos s Hv Hlo ltac:(fold n; lia))
    as (h1 & Hss & Hv1 & Hlen1 & Hb1 & _).
  fold n in Hb1.
  destruct (SetInt_then_GetInt h1 p (pos + 4 + n) v Hv1 ltac:(lia) ltac:(lia))
    as (h2 & Hsi & _ & Hgi).
  destruct (SetInt_ok h1 p (pos + 4 + n) Hv1 ltac:(lia) ltac:(lia) v)
    as (h2' & Hsi' & Hb2 & Hlen2 & Hv2 & _).
  assert (h2' = h2) as -> by congruence.
  pose proof (bytes_of_length _ _ Hv) as Hpl.
  pose proof (length_list_byte_of_string s) as Hdl.
  set (data := list_byte_of_string s) in *.
  assert (drop (Z.to_nat pos) (bytes_of h1 (buf p))
          = be32 (uint32 n) ++ data
            ++ drop (Z.to_nat pos + 4 + length data) (bytes_of h (buf p)))
    as Hd1.
  { rewrite Hb1. apply drop_splice_splice; [reflexivity|].
    unfold len in *. lia. }
  assert (be_value (drop (Z.to_nat pos) (bytes_of h1 (buf p))) = n) as HL.
  { rewrite Hd1, be_value_be32. unfold uint32.
    rewrite Z.mod_mod, Z.mod_small by lia. reflexivity. }
  assert (GetBytes p pos h1
          = (h1 ++ [data], Ok (Slice (length h1) 0 (length data)))) as Hgb.
  { rewrite GetBytes_ok by (auto; rewrite ?HL; lia). rewrite HL.
    replace (Z.to_nat n) with (length data) by lia.
    do 3 f_equal. rewrite <- drop_drop, Hd1.
    change (drop 4 (be32 (uint32 n) ++ ?x)) with x.
    apply take_app_length. }
  destruct (GetBytes_frame h1 h2 p pos _ _ Hv1 (Hv2 _ Hv1) Hlen2 Hlo Hgb)
    as (h3 & Hgb2 & Hsame).
  { intros k Hk. cbn [s_len] in Hk. rewrite Hb2. symmetry.
    apply splice_outside; [|simpl; lia].
    rewrite bytes_of_length by exact Hv1. unfold len in *. simpl. lia. }
  exists h1, h2, h3. split; [exact Hss|]. split; [exact Hsi|].
  split; [exact Hgi|].
  unfold GetString, bind. rewrite Hgb2. unfold string_of_bytes.
  rewrite Hsame, bytes_of_fresh. subst data.
  rewrite string_of_list_byte_of_string. reflexivity.
Qed.

Lemma MaxLength_places_next_field_witness :
  let h : heap := [replicate 32 x00] in
  let p := mkPage (Slice 0 0 32) in
  let s := "abcdefghijklm"%string in
  let n := Z.of_nat (String.length s) in
  let pos2 := int_add 8 (MaxLength n) in
  valid h (buf p) /\ 0 <= 8 /\ 8 + 4 + n + 4 <= len (buf p) /\ n < 2 ^ 32
  /\ pos2 = 8 + 4 + n
  /\ exists h1 h2 h3,
      SetString p 8 s h = (h1, Ok tt)
      /\ SetInt p pos2 345 h1 = (h2, Ok tt)
      /\ GetInt p pos2 h2 = (h2, Ok (345 mod 2 ^ 32))
      /\ GetString p 8 h2 = (h3, Ok s).
Proof.
  intros h p s n pos2.
  assert (valid h (buf p)) as Hp by (unfold valid, MaxInt64; simpl; lia).
  split; [exact Hp|]. split; [lia|]. split; [vm_compute; discriminate|].
  split; [reflexivity|].
  apply (MaxLength_places_next_field h p 8 s 345 Hp).
  - lia.
  - vm_compute; discriminate.
  - reflexivity.
Defined.

(** ** Reading and fresh pages *)

(** X4.  The reading operations change no array there is: whatever it
    returns, [GetInt] leaves the heap as it was, and [GetBytes] and
    [GetString] at most add the array of the copy at its end. *)
Theorem readers_do_not_write h p offset :
  fst (GetInt p offset h) = h
  /\ (exists extra, fst (GetBytes p offset h) = h ++ extra
                    /\ (length extra <= 1)%nat)
  /\ (exists extra, fst (GetString p offset h) = h ++ extra
                    /\ (length extra <= 1)%nat).
Proof.
  assert (exists extra, fst (GetBytes p offset h) = h ++ extra
                        /\ (length extra <= 1)%nat) as Hgb.
  { unfold GetBytes, bind, lift, fail, Uint32, panic, make_bytes, copy, ret.
    destruct (_ >? _); [exists []; rewrite app_nil_r; auto|].
    destruct (slice_from _ _) as [hdr|e|e];
      [|exists []; rewrite app_nil_r; auto..].
    destruct (len hdr <? 4); [exists []; rewrite app_nil_r; auto|].
    destruct (_ >? _); [exists []; rewrite app_nil_r; auto|].
    destruct (_ <? 0); [exists []; rewrite app_nil_r; auto|].
    destruct (slice_range _ _ _) as [src|e|e];
      [|eexists [_]; split; [reflexivity|simpl; lia]..].
    cbn [fst s_arr s_lo s_len].
    rewrite insert_app_r_alt, Nat.sub_diag by lia. cbn [insert list_insert].
    eexists [_]. split; [reflexivity|simpl; lia]. }
  split; [|split; [exact Hgb|]].
  - unfold GetInt, bind, lift, fail, Uint32, panic.
    destruct (_ >? _); [reflexivity|].
    destruct (slice_from _ _) as [b|e|e]; try reflexivity.
    destruct (len b <? 4); reflexivity.
  - destruct Hgb as (extra & He & Hl). exists extra. split; [|exact Hl].
    unfold GetString, bind, string_of_bytes.
    destruct (GetBytes p offset h) as [h' [b|e|e]]; exact He.
Qed.

Lemma be_value_zeros (l : list byte) :
  (forall i, default x00 (l !! i) = x00) -> be_value l = 0.
Proof.
  intros H. unfold be_value, byte_nth. rewrite !H. reflexivity.
Qed.

Lemma replicate_zero_default (n i k : nat) :
  default x00 (drop k (replicate n x00) !! i) = x00.
Proof.
  rewrite lookup_drop.
  destruct (replicate n x00 !! (k + i)%nat) as [x|] eqn:E; [|reflexivity].
  apply lookup_replicate in E as (-> & _). reflexivity.
Qed.



(** X6.  Byte arrays and strings share one layout, a big-endian length in
    four bytes and then the bytes: after [SetBytes(offset, b)] with fewer
    than 2^32 bytes, [GetInt(offset)] returns [len(b)] and [GetString]
    returns the bytes of [b] as a string; after [SetString(offset, s)],
    [GetInt(offset)] returns the length of [s]. *)
Theorem length_header_layout h p offset :
  valid h (buf p) -> 0 <= offset ->
  (forall b,
      valid h b -> s_arr b <> s_arr (buf p) ->
      offset + 4 + len b <= len (buf p) -> len b < 2 ^ 32 ->
      exists h1,
        SetBytes p offset b h = (h1, Ok tt)
        /\ GetInt p offset h1 = (h1, Ok (len b))
        /\ snd (GetString p offset h1)
           = Ok (string_of_list_byte (bytes_of h b)))
  /\ (forall s,
         offset + 4 + Z.of_nat (String.length s) <= len (buf p) ->
         Z.of_nat (String.length s) < 2 ^ 32 ->
         exists h1,
           SetString p offset s h = (h1, Ok tt)
           /\ GetInt p offset h1 = (h1, Ok (Z.of_nat (String.length s)))).
Proof.
  intros Hv Hlo.
  pose proof (bytes_of_length _ _ Hv) as Hpl.
  pose proof (valid_len _ _ Hv) as Hl.
  split.
  - intros b Hb Hne Hhi Hlt.
    pose proof (valid_len _ _ Hb) as Hlb.
    pose proof (bytes_of_length _ _ Hb) as Hbl.
    destruct (SetBytes_ok h p offset Hv Hlo b Hb Hne Hhi)
      as (h1 & Hset & Hbytes & _ & Hv1 & _).
    destruct (SetBytes_then_GetBytes h p offset b Hv Hb Hne Hlo Hhi)
      as (h1' & Hset' & _ & _ & Hget).
    assert (h1' = h1) as -> by congruence.
    exists h1. split; [exact Hset|]. split.
    + rewrite GetInt_ok by (auto; lia). do 2 f_equal.
      rewrite Hbytes, drop_splice_splice by (unfold len in *; simpl; lia).
      rewrite be_value_be32. unfold uint32.
      rewrite Z.mod_mod, Z.mod_small by lia. reflexivity.
    + unfold GetString, bind. cbv zeta in Hget. rewrite Hget.
      unfold string_of_bytes. cbn [snd]. do 2 f_equal.
      rewrite Z.mod_small by lia. unfold len. rewrite Nat2Z.id.
      rewrite <- Hbl at 1. rewrite firstn_all.
      rewrite <- Hbl. apply bytes_of_fresh.
  - intros s Hhi Hlt.
    destruct (SetString_ok h p offset s Hv Hlo Hhi)
      as (h1 & Hss & Hv1 & _ & Hb1 & _).
    pose proof (length_list_byte_of_string s) as Hdl.
    exists h1. split; [exact Hss|].
    rewrite GetInt_ok by (auto; lia). do 2 f_equal.
    rewrite Hb1, drop_splice_splice by (unfold len in *; simpl; lia).
    rewrite be_value_be32. unfold uint32.
    rewrite Z.mod_mod, Z.mod_small by lia. reflexivity.
Qed.

Lemma length_header_layout_witness :
  let h : heap := [replicate 16 x00; map byte_of_Z [104; 105; 33]] in
  let p := mkPage (Slice 0 0 16) in
  let b := Slice 1 0 3 in
  valid h (buf p) /\ 0 <= 2
  /\ (valid h b /\ s_arr b <> s_arr (buf p)
      /\ 2 + 4 + len b <= len (buf p) /\ len b < 2 ^ 32
      /\ exists h1,
          SetBytes p 2 b h = (h1, Ok tt)
          /\ GetInt p 2 h1 = (h1, Ok (len b))
          /\ snd (GetString p 2 h1) = Ok (string_of_list_byte (bytes_of h b)))
  /\ (2 + 4 + Z.of_nat (String.length "hi!") <= len (buf p)
      /\ Z.of_nat (String.length "hi!") < 2 ^ 32
      /\ exists h1,
          SetString p 2 "hi!" h = (h1, Ok tt)
          /\ GetInt p 2 h1 = (h1, Ok (Z.of_nat (String.length "hi!")))).
Proof.
  intros h p b.
  assert (valid h (buf p)) as Hp by (unfold valid, MaxInt64; simpl; lia).
  assert (valid h b) as Hb by (unfold valid, MaxInt64; simpl; lia).
  assert (s_arr b <> s_arr (buf p)) as Hne by (simpl; lia).
  pose proof (length_header_layout h p 2 Hp ltac:(lia)) as (H1 & H2).
  split; [exact Hp|]. split; [lia|]. split.
  - split; [exact Hb|]. split; [exact Hne|].
    split; [vm_compute; discriminate|]. split; [reflexivity|].
    apply (H1 b Hb Hne); [vm_compute; discriminate|reflexivity].
  - split; [vm_compute; discriminate|]. split; [reflexivity|].
    apply (H2 "hi!"%string); [vm_compute; discriminate|reflexivity].
Defined.

(** ** Blocks of a file *)

Lemma length_pwrite (data new : list byte) off :
  new <> [] ->
  length (pwrite data off new) = Nat.max (length data) (off + length new).
Proof.
  intros Hnew. unfold pwrite. destruct new as [|x new]; [congruence|].
  rewrite !length_app, length_take, length_replicate, length_drop. lia.
Qed.

Lemma lookup_pwrite (data new : list byte) off k :
  new <> [] ->
  pwrite data off new !! k
  = if decide (k < off)%nat
    then (if decide (k < length data)%nat then data !! k else Some x00)
    else if decide (k < off + length new)%nat then new !! (k - off)%nat
    else data !! k.
Proof.
  intros Hnew. unfold pwrite. destruct new as [|x new]; [congruence|].
  set (nw := x :: new).
  destruct (decide (k < off)%nat) as [Hk|Hk].
  - destruct (decide (k < length data)%nat) as [Hd|Hd].
    + rewrite lookup_app_l by (rewrite length_take; lia).
      apply lookup_take_lt. lia.
    + rewrite lookup_app_r by (rewrite length_take; lia).
      rewrite length_take, Nat.min_r by lia.
      rewrite lookup_app_l by (rewrite length_replicate; lia).
      apply lookup_replicate_2. lia.
  - rewrite lookup_app_r by (rewrite length_take; lia).
    rewrite lookup_app_r by (rewrite length_take, length_replicate; lia).
    rewrite length_take, length_replicate.
    replace (k - off `min` length data - (off - length data))%nat
      with (k - off)%nat by lia.
    destruct (decide (k < off + length nw)%nat) as [Hn|Hn].
    + apply lookup_app_l. lia.
    + rewrite lookup_app_r by lia. rewrite lookup_drop. f_equal. lia.
Qed.

(** The block written is there, the complete blocks beside it are as they
    were, and the blocks skipped past the old end are zero. *)
Lemma block_pwrite (data new : list byte) (bs n : nat) :
  new <> [] -> length new = bs ->
  block bs (pwrite data (n * bs) new) n = new
  /\ (forall m, m <> n -> ((m + 1) * bs <= length data)%nat ->
        block bs (pwrite data (n * bs) new) m = block bs data m)
  /\ (forall m, (m < n)%nat -> (length data <= m * bs)%nat ->
        block bs (pwrite data (n * bs) new) m = replicate bs x00).
Proof.
  intros Hnew Hlen. unfold block. split; [|split].
  - apply list_eq. intros k.
    destruct (decide (k < bs)%nat) as [Hk|Hk].
    + rewrite lookup_take_lt, lookup_drop, lookup_pwrite by assumption.
      rewrite decide_False, decide_True by lia. f_equal. lia.
    + rewrite lookup_take_ge by lia. symmetry. apply lookup_ge_None. lia.
  - intros m Hne Hm. apply list_eq. intros k.
    destruct (decide (k < bs)%nat) as [Hk|Hk].
    + rewrite !lookup_take_lt, !lookup_drop, lookup_pwrite by assumption.
      destruct (decide (m < n)%nat) as [Hlt|Hge].
      * rewrite decide_True by nia. rewrite decide_True by nia. reflexivity.
      * rewrite decide_False by nia. rewrite decide_False by nia. reflexivity.
    + rewrite !lookup_take_ge by lia. reflexivity.
  - intros m Hlt Hm. apply list_eq. intros k.
    destruct (decide (k < bs)%nat) as [Hk|Hk].
    + rewrite lookup_take_lt, lookup_drop, lookup_pwrite by assumption.
      rewrite decide_True by nia. rewrite decide_False by nia.
      symmetry. apply lookup_replicate_2. exact Hk.
    + rewrite lookup_take_ge by lia. symmetry. apply lookup_ge_None.
      rewrite length_replicate. lia.
Qed.

(** Replacing the bytes of an open file and moving its cursor keeps the
    world in order. *)
Lemma world_ok_update w f name pos pos' data data' h l :
  world_ok w ->
  w_fdt w !! fd f = Some (name, pos) ->
  w_dir w !! name = Some (RegularFile data) ->
  Z.of_nat (length data') <= MaxInt64 ->
  world_ok (World h (<[name := RegularFile data']> (w_dir w))
              (<[fd f := (name, pos')]> (w_fdt w)) (w_open w) l).
Proof.
  intros (Hopen & Hsize) Hfd Hd Hlen. split; cbn.
  - intros name' f' Hf'. destruct (Hopen _ _ Hf') as ((q & Hq) & (d & Hdd)).
    split.
    + destruct (decide (fd f' = fd f)) as [E|E].
      * rewrite E in *. assert (name' = name) as -> by congruence.
        exists pos'. apply list_lookup_insert_eq.
        apply lookup_lt_is_Some. eauto.
      * exists q. rewrite list_lookup_insert_ne by congruence. exact Hq.
    + destruct (decide (name = name')) as [<-|Hne].
      * rewrite lookup_insert_eq. eauto.
      * rewrite lookup_insert_ne by exact Hne. eauto.
  - intros name' d'. destruct (decide (name = name')) as [<-|Hne].
    + rewrite lookup_insert_eq. intros [= <-]. exact Hlen.
    + rewrite lookup_insert_ne by exact Hne. apply Hsize.
Qed.

Lemma world_ok_seek w f name pos pos' h l :
  world_ok w ->
  w_fdt w !! fd f = Some (name, pos) ->
  world_ok (World h (w_dir w) (<[fd f := (name, pos')]> (w_fdt w)) (w_open w) l).
Proof.
  intros (Hopen & Hsize) Hfd. split; cbn; [|exact Hsize].
  intros name' f' Hf'. destruct (Hopen _ _ Hf') as ((q & Hq) & Hdd).
  split; [|exact Hdd].
  destruct (decide (fd f' = fd f)) as [E|E].
  - rewrite E in *. assert (name' = name) as -> by congruence.
    exists pos'. apply list_lookup_insert_eq. apply lookup_lt_is_Some. eauto.
  - exists q. rewrite list_lookup_insert_ne by congruence. exact Hq.
Qed.

(** [Write] of a page that is a block long, to a block at an offset that
    [int64] holds. *)
Lemma Write_ok fm w blk p data :
  let off := Number blk * blocksize fm in
  world_ok w -> valid (w_heap w) (buf p) ->
  len (buf p) = blocksize fm -> 0 < blocksize fm ->
  contents w (FileName blk) = Some data ->
  0 <= Number blk -> (Number blk + 1) * blocksize fm <= MaxInt64 ->
  exists w',
    Write fm blk p w = (w', Ok tt)
    /\ world_ok w'
    /\ w_heap w' = w_heap w
    /\ w_dir w'
       = <[FileName blk :=
             RegularFile (pwrite data (Z.to_nat off) (bytes_of (w_heap w) (buf p)))]>
           (w_dir w)
    /\ exists d rest, w_log w' = SysSync d :: rest.
Proof.
  intros off Hok Hv Hlen Hbs Hc Hn Hmax.
  destruct (getFile_ok fm w (FileName blk) data Hok Hc)
    as (w1 & f & pos & Hget & Hok1 & Hh1 & Hd1 & Hn1 & Hfd1 & Ho1).
  assert (0 <= off) as Hoff by (subst off; nia).
  assert (off + blocksize fm <= MaxInt64) as Hend by (subst off; nia).
  assert (fd f < length (w_fdt w1))%nat as Hfdlt
    by (eapply lookup_lt_Some; exact Hfd1).
  set (new := bytes_of (w_heap w) (buf p)).
  assert (length new = Z.to_nat (blocksize fm)) as Hnl.
  { subst new. rewrite bytes_of_length by exact Hv. unfold len in Hlen. lia. }
  assert (Z.of_nat (length data) <= MaxInt64) as Hdl
    by (destruct Hok1 as (_ & Hsize); eapply Hsize; exact Hn1).
  set (data' := pwrite data (Z.to_nat off) new).
  exists (World (w_heap w1) (<[FileName blk := RegularFile data']> (w_dir w1))
            (<[fd f := (FileName blk, off + len (buf p))]>
               (<[fd f := (FileName blk, off)]> (w_fdt w1)))
            (w_open w1)
            (SysSync (fd f) :: SysWrite (fd f) (s_len (buf p))
               :: SysSeek (fd f) off :: w_log w1)).
  split; [|split; [|split; [|split]]].
  - unfold Write, bind.
    replace (len (buf p) =? blocksize fm) with true
      by (symmetry; apply Z.eqb_eq; exact Hlen).
    cbn [negb]. rewrite Hget.
    unfold int_mul. fold off. unfold MaxInt64 in *.
    rewrite wrap64_small by lia.
    unfold Seek. erewrite fd_lookup_Some; [|cbn; exact Hfd1|cbn; exact Hn1].
    replace (off <? 0) with false by (symmetry; apply Z.ltb_ge; lia).
    unfold Write_.
    erewrite fd_lookup_Some;
      [|cbn; apply list_lookup_insert_eq; exact Hfdlt|cbn; exact Hn1].
    rewrite gtb_false by (unfold MaxInt64; lia).
    cbn [w_heap w_dir w_fdt trace set_fdt set_dir].
    replace (bytes_of (w_heap w1) (buf p)) with new
      by (subst new; rewrite Hh1; reflexivity).
    fold data'.
    unfold Sync.
    erewrite fd_lookup_Some;
      [|cbn; apply list_lookup_insert_eq; rewrite length_insert; exact Hfdlt
       |cbn; apply lookup_insert_eq].
    reflexivity.
  - rewrite list_insert_insert_eq.
    apply (world_ok_update w1 f (FileName blk) pos _ data data'); auto.
    subst data'. rewrite length_pwrite.
    + rewrite Hnl. unfold MaxInt64 in *. lia.
    + intros E. rewrite E in Hnl. simpl in Hnl. lia.
  - cbn. exact Hh1.
  - cbn. rewrite Hd1. apply insert_insert_eq.
  - cbn. eauto.
Qed.

(** [Read] of a block the file holds in full. *)
Lemma Read_ok fm w blk p data :
  world_ok w -> valid (w_heap w) (buf p) ->
  len (buf p) = blocksize fm -> 0 < blocksize fm ->
  contents w (FileName blk) = Some data ->
  0 <= Number blk ->
  (Number blk + 1) * blocksize fm <= Z.of_nat (length data) ->
  exists w',
    Read fm blk p w = (w', Ok tt)
    /\ world_ok w'
    /\ bytes_of (w_heap w') (buf p)
       = block (Z.to_nat (blocksize fm)) data (Z.to_nat (Number blk))
    /\ w_dir w' = <[FileName blk := RegularFile data]> (w_dir w)
    /\ length (w_heap w') = length (w_heap w)
    /\ (forall t, valid (w_heap w) t -> valid (w_heap w') t)
    /\ (forall t, s_arr t <> s_arr (buf p) ->
          bytes_of (w_heap w') t = bytes_of (w_heap w) t).
Proof.
  intros Hok Hv Hlen Hbs Hc Hn Hfull.
  destruct (getFile_ok fm w (FileName blk) data Hok Hc)
    as (w1 & f & pos & Hget & Hok1 & Hh1 & Hd1 & Hn1 & Hfd1 & Ho1).
  assert (Z.of_nat (length data) <= MaxInt64) as Hdl
    by (destruct Hok1 as (_ & Hsize); eapply Hsize; exact Hn1).
  set (off := Number blk * blocksize fm) in *.
  assert (0 <= off) as Hoff by (subst off; nia).
  assert (fd f < length (w_fdt w1))%nat as Hfdlt
    by (eapply lookup_lt_Some; exact Hfd1).
  set (got := take (s_len (buf p)) (drop (Z.to_nat off) data)).
  assert (length got = s_len (buf p)) as Hgl.
  { subst got. rewrite length_take, length_drop. unfold len in Hlen. nia. }
  assert (got = block (Z.to_nat (blocksize fm)) data (Z.to_nat (Number blk)))
    as Hgb.
  { subst got. unfold block. unfold len in Hlen.
    f_equal; [lia|]. f_equal. subst off. nia. }
  assert (s_len (buf p) + 0 = s_len (buf p))%nat as Hz by lia.
  exists (World (fst (store (buf p) got (w_heap w1))) (w_dir w1)
            (<[fd f := (FileName blk, off + Z.of_nat (length got))]>
               (<[fd f := (FileName blk, off)]> (w_fdt w1)))
            (w_open w1)
            (SysRead (fd f) (s_len (buf p)) :: SysSeek (fd f) off :: w_log w1)).
  split; [|split; [|split; [|split; [|split; [|split]]]]].
  - unfold Read, bind.
    replace (len (buf p) =? blocksize fm) with true
      by (symmetry; apply Z.eqb_eq; exact Hlen).
    cbn [negb]. rewrite Hget.
    unfold int_mul. fold off. unfold MaxInt64 in *.
    rewrite wrap64_small by nia.
    unfold Seek. erewrite fd_lookup_Some; [|cbn; exact Hfd1|cbn; exact Hn1].
    replace (off <? 0) with false by (symmetry; apply Z.ltb_ge; lia).
    unfold ReadFull.
    replace (s_len (buf p) =? 0)%nat with false
      by (symmetry; apply Nat.eqb_neq; unfold len in Hlen; lia).
    erewrite fd_lookup_Some;
      [|cbn; apply list_lookup_insert_eq; exact Hfdlt|cbn; exact Hn1].
    fold got. rewrite Hgl, Nat.eqb_refl. reflexivity.
  - rewrite list_insert_insert_eq. apply (world_ok_seek w1 f _ pos); auto.
  - cbn [w_heap]. rewrite Hh1, store_bytes by (auto; lia).
    rewrite Hgl, drop_ge by (rewrite bytes_of_length by exact Hv; lia).
    rewrite app_nil_r. exact Hgb.
  - cbn. exact Hd1.
  - cbn [w_heap]. rewrite Hh1. apply length_insert.
  - intros t Ht. cbn [w_heap]. rewrite Hh1.
    pose proof (store_tail_valid (w_heap w) (buf p) 0 got Hv ltac:(lia) t Ht)
      as H.
    rewrite Nat.add_0_r in H. exact H.
  - intros t Ht. cbn [w_heap]. rewrite Hh1.
    pose proof (store_tail_frame (w_heap w) (buf p) 0 got Hv t Ht) as H.
    rewrite Nat.add_0_r in H. exact H.
Qed.





Lemma Stat_heap f w w' r : Stat f w = (w', r) -> w_heap w' = w_heap w.
Proof.
  unfold Stat. intros H.
  destruct (fd_lookup _ f) as [[[name pos] data]|]; injection H as <- _;
    reflexivity.
Qed.

Lemma WriteAt_heap f b off w w' r :
  WriteAt f b off w = (w', r) -> w_heap w' = w_heap w.
Proof.
  unfold WriteAt. intros H.
  destruct (off <? 0); [injection H as <- _; reflexivity|].
  destruct (fd_lookup _ f) as [[[name pos] data]|];
    [destruct (_ >? _)|]; injection H as <- _; reflexivity.
Qed.

(** [Append] changes no array there is; it adds the array of the zero
    block. *)
Lemma Append_heap fm name w w' r :
  Append fm name w = (w', r) ->
  exists extra, w_heap w' = w_heap w ++ extra.
Proof.
  unfold Append, bind, lift, on_heap, make_bytes, panic, ret. intros H.
  destruct (getFile fm name w) as [w1 r1] eqn:E1. apply getFile_heap in E1.
  destruct r1 as [f|e|e];
    [|injection H as <- _; exists []; rewrite app_nil_r; exact E1..].
  destruct (Stat f w1) as [w2 r2] eqn:E2. apply Stat_heap in E2.
  destruct r2 as [size|e|e];
    [|injection H as <- _; exists []; rewrite app_nil_r; congruence..].
  destruct (int_div size (blocksize fm)) as [n|e|e];
    [|injection H as <- _; exists []; rewrite app_nil_r; congruence..].
  destruct (blocksize fm <? 0).
  { injection H as <- _. exists []. rewrite app_nil_r. cbn. congruence. }
  cbn [set_heap w_heap] in H.
  match type of H with
  | context [WriteAt f ?z ?o ?ww] =>
      destruct (WriteAt f z o ww) as [w3 r3] eqn:E3
  end.
  apply WriteAt_heap in E3. cbn [w_heap] in E3.
  destruct r3 as [z3|e|e];
    [|injection H as <- _; eexists [_]; rewrite E3, E2, E1; reflexivity..].
  destruct (Sync f w3) as [w4 r4] eqn:E4. apply Sync_heap in E4.
  destruct r4 as [[]|e|e]; injection H as <- _;
    eexists [_]; rewrite E4, E3, E2, E1; reflexivity.
Qed.



(** ** What the file manager keeps, whatever a call returns *)

Lemma getFile_any fm name w w' r :
  world_ok w -> getFile fm name w = (w', r) ->
  world_ok w' /\ dir_created name w w'
  /\ forall f, r = Ok f ->
       exists pos data,
         w_fdt w' !! fd f = Some (name, pos)
         /\ w_dir w' !! name = Some (RegularFile data).
Proof.
  intros Hok H.
  destruct (contents w name) as [data|] eqn:Hc.
  - destruct (getFile_ok fm w name data Hok Hc)
      as (w1 & f & pos & Hget & Hok1 & _ & Hd1 & Hn1 & Hfd1 & _).
    rewrite Hget in H. injection H as <- <-.
    split; [exact Hok1|]. split.
    + unfold contents in Hc. unfold dir_created.
      destruct (w_dir w !! name) as [[d|names]|] eqn:E; [|discriminate|].
      * left. rewrite Hd1. apply insert_id. congruence.
      * right. split; [reflexivity|]. congruence.
    + intros f' [= <-]. eauto.
  - unfold getFile in H.
    destruct (w_open w !! name) as [f|] eqn:Ho.
    { destruct Hok as (Hopen & _). destruct (Hopen _ _ Ho) as (_ & d & Hd).
      unfold contents in Hc. rewrite Hd in Hc. discriminate. }
    unfold bind, OpenFile in H. cbn [w_dir trace] in H.
    unfold contents in Hc.
    destruct (w_dir w !! name) as [[d|names]|]; try discriminate.
    injection H as <- <-.
    split; [exact Hok|]. split; [left; reflexivity|]. discriminate.
Qed.

Lemma dir_created_other name w w' name' :
  dir_created name w w' -> name' <> name ->
  w_dir w' !! name' = w_dir w !! name'.
Proof.
  intros [->|(_ & ->)] Hne; [reflexivity|].
  apply lookup_insert_ne. congruence.
Qed.

Lemma dir_created_keeps name w w' n e :
  dir_created name w w' -> w_dir w !! n = Some e -> w_dir w' !! n = Some e.
Proof.
  intros [->|(Hnone & ->)] He; [exact He|].
  rewrite lookup_insert_ne; [exact He|]. congruence.
Qed.

Lemma Length_any fm name w w' r :
  world_ok w -> Length fm name w = (w', r) ->
  world_ok w' /\ dir_created name w w'.
Proof.
  intros Hok H. unfold Length, bind, lift in H.
  destruct (getFile fm name w) as [w1 r1] eqn:E1.
  destruct (getFile_any _ _ _ _ _ Hok E1) as (Hok1 & Hdir & Hf).
  destruct r1 as [f|e|e]; [|injection H as <- _; auto..].
  destruct (Hf f eq_refl) as (pos & data & Hfd & Hd).
  rewrite (Stat_ok w1 f name pos data Hfd Hd) in H.
  destruct (int_div _ _); injection H as <- _; auto.
Qed.

Lemma Read_any fm blk p w w' r :
  world_ok w -> Read fm blk p w = (w', r) ->
  world_ok w' /\ dir_created (FileName blk) w w'.
Proof.
  intros Hok H. unfold Read, bind, fail in H.
  destruct (negb _); [injection H as <- _; split; [exact Hok|left; reflexivity]|].
  destruct (getFile fm (FileName blk) w) as [w1 r1] eqn:E1.
  destruct (getFile_any _ _ _ _ _ Hok E1) as (Hok1 & Hdir & Hf).
  destruct r1 as [f|e|e]; [|injection H as <- _; auto..].
  destruct (Hf f eq_refl) as (pos & data & Hfd & Hd).
  assert (fd f < length (w_fdt w1))%nat as Hlt
    by (eapply lookup_lt_Some; exact Hfd).
  set (off := int_mul (Number blk) (blocksize fm)) in *.
  unfold Seek in H.
  erewrite fd_lookup_Some in H; [|cbn; exact Hfd|cbn; exact Hd].
  destruct (off <? 0); [injection H as <- _; auto|].
  unfold ReadFull in H.
  destruct (s_len (buf p) =? 0)%nat.
  { injection H as <- _. split; [|exact Hdir].
    apply (world_ok_seek w1 f _ pos); assumption. }
  erewrite fd_lookup_Some in H;
    [|cbn; apply list_lookup_insert_eq; exact Hlt|cbn; exact Hd].
  set (got := take _ _) in H.
  assert (world_ok
            (set_heap (store (buf p) got (w_heap w1)).1
               (set_fdt
                  (<[fd f := (FileName blk, off + Z.of_nat (length got))]>
                     (<[fd f := (FileName blk, off)]> (w_fdt w1)))
                  (trace (SysRead (fd f) (s_len (buf p)))
                     (set_fdt (<[fd f := (FileName blk, off)]> (w_fdt w1))
                        (trace (SysSeek (fd f) off) w1)))))) as Hok3.
  { cbn. rewrite list_insert_insert_eq.
    apply (world_ok_seek w1 f _ pos); assumption. }
  cbn [w_fdt w_heap trace set_fdt set_heap] in H.
  destruct (length got =? s_len (buf p))%nat;
    [|destruct (length got =? 0)%nat]; injection H as <- _; auto.
Qed.

Lemma length_pwrite_le (data new : list byte) off :
  (length (pwrite data off new) <= Nat.max (length data) (off + length new))%nat.
Proof.
  destruct new as [|x new]; [cbn; lia|].
  rewrite length_pwrite by discriminate. lia.
Qed.

Lemma bytes_of_length_le h s : (length (bytes_of h s) <= s_len s)%nat.
Proof. unfold bytes_of. rewrite length_take. lia. Qed.

Lemma pwrite_fits h (data : list byte) off b :
  Z.of_nat (length data) <= MaxInt64 -> 0 <= off ->
  (off + len b >? MaxInt64) = false ->
  Z.of_nat (length (pwrite data (Z.to_nat off) (bytes_of h b))) <= MaxInt64.
Proof.
  intros Hd Hoff Hfit. rewrite Z.gtb_ltb in Hfit. apply Z.ltb_ge in Hfit.
  pose proof (length_pwrite_le data (bytes_of h b) (Z.to_nat off)).
  pose proof (bytes_of_length_le h b). unfold len in Hfit. lia.
Qed.

Lemma Sync_state f w : (Sync f w).1 = trace (SysSync (fd f)) w.
Proof. unfold Sync. destruct (fd_lookup _ f); reflexivity. Qed.

Lemma Write_any fm blk p w w' r :
  world_ok w -> Write fm blk p w = (w', r) ->
  world_ok w'
  /\ forall name, name <> FileName blk -> w_dir w' !! name = w_dir w !! name.
Proof.
  intros Hok H. unfold Write, bind, fail in H.
  destruct (negb _); [injection H as <- _; split; [exact Hok|reflexivity]|].
  destruct (getFile fm (FileName blk) w) as [w1 r1] eqn:E1.
  destruct (getFile_any _ _ _ _ _ Hok E1) as (Hok1 & Hdir & Hf).
  pose proof (fun n => dir_created_other _ _ _ n Hdir) as Hoth.
  destruct r1 as [f|e|e]; [|injection H as <- _; auto..].
  destruct (Hf f eq_refl) as (pos & data & Hfd & Hd).
  assert (fd f < length (w_fdt w1))%nat as Hlt
    by (eapply lookup_lt_Some; exact Hfd).
  set (off := int_mul (Number blk) (blocksize fm)) in *.
  unfold Seek in H.
  erewrite fd_lookup_Some in H; [|cbn; exact Hfd|cbn; exact Hd].
  destruct (off <? 0) eqn:Hneg; [injection H as <- _; auto|].
  apply Z.ltb_ge in Hneg.
  unfold Write_ in H.
  erewrite fd_lookup_Some in H;
    [|cbn; apply list_lookup_insert_eq; exact Hlt|cbn; exact Hd].
  destruct (off + len (buf p) >? MaxInt64) eqn:Hfit.
  { injection H as <- _. split; [|exact Hoth].
    apply (world_ok_seek w1 f _ pos); assumption. }
  cbn [w_fdt w_heap w_dir trace set_fdt set_heap set_dir] in H.
  match type of H with
  | Sync f ?w3 = _ => pose proof (Sync_state f w3) as Hs
  end.
  rewrite H in Hs. cbn [fst] in Hs.
  assert (w' = trace (SysSync (fd f))
                 (World (w_heap w1)
                    (<[FileName blk := RegularFile
                         (pwrite data (Z.to_nat off)
                            (bytes_of (w_heap w1) (buf p)))]> (w_dir w1))
                    (<[fd f := (FileName blk, off + len (buf p))]>
                       (<[fd f := (FileName blk, off)]> (w_fdt w1)))
                    (w_open w1)
                    (SysWrite (fd f) (s_len (buf p))
                       :: SysSeek (fd f) off :: w_log w1))) as ->
    by exact Hs.
  split.
  - apply world_ok_trace. rewrite list_insert_insert_eq.
    apply (world_ok_update w1 f _ pos _ data); try assumption.
    apply pwrite_fits; [|assumption..].
    destruct Hok1 as (_ & Hsize). eapply Hsize; exact Hd.
  - intros name Hne. cbn. rewrite lookup_insert_ne by congruence.
    apply Hoth, Hne.
Qed.

Lemma Append_any fm name w w' r :
  world_ok w -> Append fm name w = (w', r) ->
  world_ok w'
  /\ forall name', name' <> name -> w_dir w' !! name' = w_dir w !! name'.
Proof.
  intros Hok H. unfold Append, bind, lift, ret in H.
  destruct (getFile fm name w) as [w1 r1] eqn:E1.
  destruct (getFile_any _ _ _ _ _ Hok E1) as (Hok1 & Hdir & Hf).
  pose proof (fun n => dir_created_other _ _ _ n Hdir) as Hoth.
  destruct r1 as [f|e|e]; [|injection H as <- _; auto..].
  destruct (Hf f eq_refl) as (pos & data & Hfd & Hd).
  rewrite (Stat_ok w1 f name pos data Hfd Hd) in H.
  pose proof (world_ok_trace (SysStat (fd f)) w1 Hok1) as Hok2.
  set (w2 := trace (SysStat (fd f)) w1) in *.
  assert (forall name', name' <> name -> w_dir w2 !! name' = w_dir w !! name')
    as Hoth2 by exact Hoth.
  destruct (int_div _ _) as [n|e|e]; [|injection H as <- _; auto..].
  unfold on_heap, make_bytes in H.
  destruct (blocksize fm <? 0); [injection H as <- _; split; [|exact Hoth2]|].
  { destruct Hok2 as (Ho & Hs). split; [exact Ho|exact Hs]. }
  set (zero := Slice _ _ _) in H. set (h3 := _ ++ _) in H.
  set (off := int_mul n (blocksize fm)) in *.
  unfold WriteAt in H.
  destruct (off <? 0) eqn:Hneg.
  { injection H as <- _. split; [|exact Hoth2].
    destruct Hok2 as (Ho & Hs). split; [exact Ho|exact Hs]. }
  apply Z.ltb_ge in Hneg.
  erewrite fd_lookup_Some in H; [|cbn; exact Hfd|cbn; exact Hd].
  destruct (off + len zero >? MaxInt64) eqn:Hfit.
  { injection H as <- _. split; [|exact Hoth2].
    destruct Hok2 as (Ho & Hs). split; [exact Ho|exact Hs]. }
  cbn [w_fdt w_heap w_dir trace set_fdt set_heap set_dir] in H.
  match type of H with
  | (let (_, _) := Sync f ?w3 in _) = _ =>
      pose proof (Sync_state f w3) as Hs; destruct (Sync f w3) as [w4 r4]
  end.
  cbn [fst] in Hs. subst w4.
  assert (w' = trace (SysSync (fd f))
                 (World h3
                    (<[name := RegularFile
                         (pwrite data (Z.to_nat off) (bytes_of h3 zero))]>
                       (w_dir w1))
                    (w_fdt w1) (w_open w1)
                    (SysPwrite (fd f) (s_len zero) off
                       :: SysStat (fd f) :: w_log w1))) as ->
    by (destruct r4; injection H as <- _; reflexivity).
  split.
  - apply world_ok_trace.
    rewrite <- (list_insert_id (w_fdt w1) (fd f) (name, pos) Hfd).
    apply (world_ok_update w1 f _ pos _ data); try assumption.
    apply pwrite_fits; [|assumption..].
    destruct Hok1 as (_ & Hsize). eapply Hsize; exact Hd.
  - intros name' Hne. cbn. rewrite lookup_insert_ne by congruence.
    apply Hoth, Hne.
Qed.





(** ** The constructor *)

Lemma remove_temp_survivors (d : gmap string entry) k :
  remove_temp (ReadDir d) d !! k
  = match d !! k with
    | Some e => if survives k e then Some e else None
    | None => None
    end.
Proof.
  rewrite remove_temp_lookup. destruct (d !! k) as [e|] eqn:E; [|reflexivity].
  rewrite decide_True by (eapply elem_of_ReadDir; exact E). reflexivity.
Qed.

Lemma remove_temp_idempotent (d : gmap string entry) :
  let d' := remove_temp (ReadDir d) d in
  remove_temp (ReadDir d') d' = d'.
Proof.
  intros d'. apply map_eq. intros k.
  rewrite remove_temp_survivors. unfold d'. rewrite remove_temp_survivors.
  destruct (d !! k) as [e|]; [|reflexivity].
  destruct (survives k e) eqn:E; [rewrite E|]; reflexivity.
Qed.



(** ** The lock *)



(** ** Block numbers and block sizes the callers should not pass *)

Lemma contents_file w name data :
  w_dir w !! name = Some (RegularFile data) -> contents w name = Some data.
Proof. intros H. unfold contents. rewrite H. reflexivity. Qed.





(** ** The program *)

Lemma bind_Ok {S A B} (m : M S A) (k : A -> M S B) s s' a :
  m s = (s', Ok a) -> bind m k s = k a s'.
Proof. intros H. unfold bind. rewrite H. reflexivity. Qed.

Lemma in_world_eq {A} (m : M world A) w w' out r :
  m w = (w', r) -> in_world m (w, out) = ((w', out), r).
Proof. intros H. unfold in_world. rewrite H. reflexivity. Qed.

Lemma on_heap_eq {A} (m : M heap A) w h' r :
  m (w_heap w) = (h', r) -> on_heap m w = (set_heap h' w, r).
Proof. intros H. unfold on_heap. rewrite H. reflexivity. Qed.

Lemma drop_err_Ok {S A} (zero : A) (m : M S A) s s' a :
  m s = (s', Ok a) -> drop_err zero m s = (s', Ok a).
Proof. intros H. unfold drop_err. rewrite H. reflexivity. Qed.

Lemma world_ok_set_heap h w : world_ok w -> world_ok (set_heap h w).
Proof. intros H. exact H. Qed.

Lemma main_body_ok (b : bool) (d : gmap string entry) data :
  (forall name x, d !! name = Some (RegularFile x) ->
     Z.of_nat (length x) <= MaxInt64) ->
  contents (init_world [] d) "testfile" = Some data ->
  exists w,
    main_body (mkFileMgr "filetest" 400 b) (init_world [] d, [])
    = ((w, [PrintIsNew b; PrintInt 105 345;
            PrintString 88 "abcdefghijklm"]), Ok tt)
    /\ w_dir w
       = <["testfile" := RegularFile (pwrite data 800 main_page)]> d.
Proof.
  intros Hsize Hc.
  set (fm := mkFileMgr "filetest" 400 b).
  set (blk := NewBlockId "testfile" 2).
  set (s := "abcdefghijklm"%string).
  set (p1 := mkPage (Slice 0 0 400)).
  set (p2 := mkPage (Slice 2 0 400)).
  set (h3 := [main_page; list_byte_of_string s] : heap).
  assert (exists h2,
             NewPage 400 [] = ([replicate 400 x00], Ok p1)
             /\ SetString p1 88 s [replicate 400 x00] = (h2, Ok tt)
             /\ SetInt p1 105 345 h2 = (h3, Ok tt)) as (h2 & H1 & H2 & H3).
  { eexists. split; [reflexivity|]. split; vm_compute; reflexivity. }
  assert (NewPage 400 h3 = (h3 ++ [replicate 400 x00], Ok p2)) as H5
    by reflexivity.
  assert (valid h3 (buf p1)) as Hv1 by (unfold valid, MaxInt64; simpl; lia).
  assert (bytes_of h3 (buf p1) = main_page) as Hb1 by reflexivity.
  assert (length main_page = 400%nat) as Hpl by reflexivity.
  (* Write *)
  destruct (Write_ok fm (init_world h3 d) blk p1 data) as
    (w4 & Hwrite & Hok4 & Hh4 & Hd4 & _);
    [apply world_ok_init; exact Hsize|exact Hv1|reflexivity|reflexivity
    |exact Hc|simpl; lia|unfold MaxInt64; simpl; lia|].
  cbn [w_heap w_dir init_world] in Hh4, Hd4. rewrite Hb1 in Hd4.
  change (Z.to_nat (Number blk * blocksize fm)) with 800%nat in Hd4.
  set (data' := pwrite data 800 main_page) in *.
  assert (length data' = Nat.max (length data) 1200) as Hdl.
  { unfold data'. rewrite length_pwrite by discriminate. rewrite Hpl.
    reflexivity. }
  (* Read *)
  set (w5 := set_heap (h3 ++ [replicate 400 x00]) w4).
  assert (valid (w_heap w5) (buf p2)) as Hv2
    by (unfold valid, MaxInt64; simpl; lia).
  destruct (Read_ok fm w5 blk p2 data') as
    (w6 & Hread & Hok6 & Hb6 & Hd6 & _ & Hv6 & _);
    [apply world_ok_set_heap; exact Hok4|exact Hv2|reflexivity|reflexivity
    |apply contents_file; cbn [w5 w_dir set_heap]; rewrite Hd4;
     apply lookup_insert_eq
    |simpl; lia|rewrite Hdl; simpl; lia|].
  assert (bytes_of (w_heap w6) (buf p2) = main_page) as Hpage.
  { rewrite Hb6.
    destruct (block_pwrite data main_page 400 2) as (E & _);
      [discriminate|exact Hpl|]. exact E. }
  specialize (Hv6 _ Hv2).
  assert (GetInt p2 105 (w_heap w6) = (w_heap w6, Ok 345)) as Hgi.
  { rewrite GetInt_ok
      by first [exact Hv6 | lia | vm_compute; discriminate].
    rewrite Hpage. reflexivity. }
  assert (exists h7, GetString p2 88 (w_heap w6) = (h7, Ok s)) as (h7 & Hgs).
  { eexists. unfold GetString, bind.
    rewrite GetBytes_ok; rewrite ?Hpage; try exact Hv6;
      [|lia|vm_compute; discriminate|vm_compute; discriminate].
    unfold string_of_bytes.
    change (Z.to_nat (be_value (drop (Z.to_nat 88) main_page))) with 13%nat.
    change 13%nat
      with (length (take 13 (drop (Z.to_nat 88 + 4) main_page))) at 2.
    rewrite bytes_of_fresh. reflexivity. }
  exists (set_heap h7 w6). split.
  - unfold main_body.
    erewrite bind_Ok by reflexivity.
    erewrite bind_Ok by (apply in_world_eq, on_heap_eq; exact H1).
    erewrite bind_Ok by (apply in_world_eq, on_heap_eq; exact H2).
    erewrite bind_Ok by (apply in_world_eq, on_heap_eq; exact H3).
    erewrite bind_Ok by (apply in_world_eq; exact Hwrite).
    erewrite bind_Ok
      by (apply in_world_eq, on_heap_eq; rewrite Hh4; exact H5).
    erewrite bind_Ok by (apply in_world_eq; exact Hread).
    erewrite bind_Ok
      by (apply drop_err_Ok, in_world_eq, on_heap_eq; exact Hgi).
    erewrite bind_Ok
      by (apply drop_err_Ok, in_world_eq, on_heap_eq; exact Hgs).
    reflexivity.
  - cbn [w_dir set_heap]. rewrite Hd6. cbn [w5 w_dir set_heap].
    rewrite Hd4. apply insert_insert_eq.
Qed.

(** X16. [main] reads back what it wrote.  When the path [filetest] does
    not exist, or is a directory in which [testfile] is absent or a regular
    file, the program ends normally after printing whether the directory
    was new, [345] for offset [105] and the string for offset [88]: the
    integer was placed at [88 + MaxLength(13) = 105], behind the string.
    Block 2 of [testfile] then holds the page, the complete blocks before it
    are as they were, and the other entries of the directory are those that
    the constructor's sweep left.  When the path is a file, the program
    ends with the constructor's error and has printed nothing. *)
Theorem main_reads_back_what_it_wrote n d data :
  (n = Absent /\ d = ∅) \/ n = Dir d ->
  (forall name x, d !! name = Some (RegularFile x) ->
     Z.of_nat (length x) <= MaxInt64) ->
  (d !! "testfile" = None /\ data = [])
  \/ d !! "testfile" = Some (RegularFile data) ->
  (exists d' data',
      main n
      = (Dir d',
         [PrintIsNew (match n with Absent => true | _ => false end);
          PrintInt 105 345; PrintString 88 "abcdefghijklm"],
         Ok tt)
      /\ d' !! "testfile" = Some (RegularFile data')
      /\ block 400 data' 2 = main_page
      /\ (forall m, (m < 2)%nat -> ((m + 1) * 400 <= length data)%nat ->
            block 400 data' m = block 400 data m)
      /\ forall name, name <> "testfile"%string ->
           d' !! name
           = match d !! name with
             | Some e => if survives name e then Some e else None
             | None => None
             end)
  /\ main PlainFile
     = (PlainFile, [], Err "filetest exists and is not a directory").
Proof.
  intros Hn Hsize Hfile. split; [|reflexivity].
  set (d1 := remove_temp (ReadDir d) d).
  assert (forall name x, d1 !! name = Some (RegularFile x) ->
            Z.of_nat (length x) <= MaxInt64) as Hsize1.
  { intros name x. unfold d1. rewrite remove_temp_survivors.
    destruct (d !! name) as [e|] eqn:E; [|discriminate].
    destruct (survives name e); [|discriminate].
    intros [= ->]. eapply Hsize; exact E. }
  assert (contents (init_world [] d1) "testfile" = Some data) as Hc.
  { unfold contents. cbn [w_dir init_world]. unfold d1.
    rewrite remove_temp_survivors.
    destruct Hfile as [(-> & ->)| ->]; reflexivity. }
  destruct (main_body_ok (match n with Absent => true | _ => false end)
              d1 data Hsize1 Hc) as (w & Hmain & Hdir).
  assert (main n
          = (Dir (w_dir w),
             [PrintIsNew (match n with Absent => true | _ => false end);
              PrintInt 105 345; PrintString 88 "abcdefghijklm"],
             Ok tt)) as Hrun.
  { unfold main. destruct Hn as [(-> & ->)| ->]; cbn [NewFileMgr entries_of];
      fold d1; rewrite Hmain; reflexivity. }
  exists (w_dir w), (pwrite data 800 main_page).
  split; [exact Hrun|]. rewrite Hdir.
  destruct (block_pwrite data main_page 400 2) as (Eb & Ebefore & _);
    [discriminate|reflexivity|].
  split; [apply lookup_insert_eq|]. split; [exact Eb|]. split.
  - intros m Hm Hfull. apply Ebefore; [lia|exact Hfull].
  - intros name Hne. rewrite lookup_insert_ne by congruence.
    apply remove_temp_survivors.
Qed.

Lemma main_reads_back_what_it_wrote_witness :
  let d : gmap string entry := <["temp1" := RegularFile []]> ∅ in
  ((Dir d = Absent /\ d = ∅) \/ Dir d = Dir d)
  /\ (forall name x, d !! name = Some (RegularFile x) ->
        Z.of_nat (length x) <= MaxInt64)
  /\ ((d !! "testfile" = None /\ [] = @nil byte)
      \/ d !! "testfile" = Some (RegularFile []))
  /\ exists d' data',
      main (Dir d)
      = (Dir d',
         [PrintIsNew false; PrintInt 105 345;
          PrintString 88 "abcdefghijklm"],
         Ok tt)
      /\ d' !! "testfile" = Some (RegularFile data')
      /\ block 400 data' 2 = main_page.
Proof.
  intros d.
  assert (forall name x, d !! name = Some (RegularFile x) ->
            Z.of_nat (length x) <= MaxInt64) as Hsize.
  { intros name x. unfold d.
    destruct (decide (name = "temp1"%string)) as [->|Hne].
    - rewrite lookup_insert_eq. intros [= <-]. unfold MaxInt64. simpl. lia.
    - rewrite lookup_insert_ne by congruence. rewrite lookup_empty.
      discriminate. }
  assert ((d !! "testfile" = None /\ [] = @nil byte)
          \/ d !! "testfile" = Some (RegularFile [])) as Hfile
    by (left; split; reflexivity).
  split; [right; reflexivity|]. split; [exact Hsize|]. split; [exact Hfile|].
  destruct (proj1 (main_reads_back_what_it_wrote (Dir d) d []
                     (or_intror eq_refl) Hsize Hfile))
    as (d' & data' & Hrun & Hd' & Hblk & _).
  exists d', data'. split; [exact Hrun|]. split; [exact Hd'|exact Hblk].
Defined.

(** ** Pages over a slice of the caller *)

Lemma slice_from_Ok_inv s a s' :
  slice_from s a = Ok s' ->
  0 <= a <= len s
  /\ s' = Slice (s_arr s) (s_lo s + Z.to_nat a) (s_len s - Z.to_nat a).
Proof.
  unfold slice_from. intros H.
  destruct (a <? 0) eqn:E1; [discriminate|].
  destruct (len s <? a) eqn:E2; [discriminate|].
  apply Z.ltb_ge in E1, E2. injection H as <-. split; [lia|reflexivity].
Qed.

Lemma shifted_page h b k o b' :
  valid h b -> slice_from b k = Ok b' -> 0 <= o -> k + o + 4 <= len b ->
  valid h b'
  /\ (forall v, SetInt (NewPageFromBytes b') o v h
                = SetInt (NewPageFromBytes b) (k + o) v h)
  /\ GetInt (NewPageFromBytes b') o h = GetInt (NewPageFromBytes b) (k + o) h.
Proof.
  intros Hv Hs Hlo Hhi.
  apply slice_from_Ok_inv in Hs as (Hk & ->).
  pose proof (valid_len _ _ Hv) as Hl. unfold MaxInt64 in Hl.
  set (b' := Slice _ _ _).
  assert (len b' = len b - k) as Hlen' by (unfold len in *; simpl; lia).
  assert (valid h b') as Hv'.
  { destruct Hv as (Ha & Hb & Hm). unfold valid, array_of, len, b' in *.
    cbn [s_arr s_lo s_len] in *. lia. }
  assert (slice_from b' o = slice_from b (k + o)) as Hsl.
  { rewrite !slice_from_ok by lia. unfold b', len in *. cbn [s_arr s_lo s_len].
    replace (Z.to_nat (k + o)) with (Z.to_nat k + Z.to_nat o)%nat by lia.
    rewrite Nat.add_assoc, Nat.sub_add_distr. reflexivity. }
  split; [exact Hv'|]. split.
  - intros v. unfold SetInt, NewPageFromBytes, int_add. cbn [buf].
    rewrite !wrap64_small by lia. rewrite !gtb_false by lia.
    rewrite Hsl. reflexivity.
  - unfold GetInt, NewPageFromBytes, int_add. cbn [buf].
    rewrite !wrap64_small by lia. rewrite !gtb_false by lia.
    rewrite Hsl. reflexivity.
Qed.

(** X17. [NewPageFromBytes] wraps the caller's slice and copies nothing.
    For a page [q] over [b[k:]]: an integer set through [q] at [o] changes
    the four bytes of [b] itself at [k + o], and is read back through a page
    over [b] at [k + o] as well as through [q] at [o]; [Buffer] gives the
    slice the page was made from. *)
Theorem NewPageFromBytes_shares_storage h b k o v b' :
  valid h b -> slice_from b k = Ok b' -> 0 <= o -> k + o + 4 <= len b ->
  let p := NewPageFromBytes b in
  let q := NewPageFromBytes b' in
  Buffer p = b /\ Buffer q = b'
  /\ exists h',
      SetInt q o v h = (h', Ok tt)
      /\ bytes_of h' b
         = splice (bytes_of h b) (Z.to_nat (k + o)) (be32 (uint32 v))
      /\ GetInt p (k + o) h' = (h', Ok (v mod 2 ^ 32))
      /\ GetInt q o h' = (h', Ok (v mod 2 ^ 32)).
Proof.
  intros Hv Hs Hlo Hhi p q.
  destruct (slice_from_Ok_inv _ _ _ Hs) as (Hk & _).
  destruct (shifted_page h b k o b' Hv Hs Hlo Hhi) as (_ & Hset & _).
  split; [reflexivity|]. split; [reflexivity|].
  destruct (SetInt_ok h p (k + o) Hv ltac:(lia) Hhi v)
    as (h' & Hsi & Hb & _ & Hvalid' & _).
  destruct (SetInt_then_GetInt h p (k + o) v Hv ltac:(lia) Hhi)
    as (h'' & Hsi' & _ & Hgi).
  assert (h'' = h') as -> by congruence.
  exists h'. split; [unfold q; rewrite Hset; exact Hsi|].
  split; [exact Hb|]. split; [exact Hgi|].
  destruct (shifted_page h' b k o b' (Hvalid' _ Hv) Hs Hlo Hhi)
    as (_ & _ & Hget).
  unfold q. rewrite Hget. exact Hgi.
Qed.

Lemma NewPageFromBytes_shares_storage_witness :
  let b := Slice 0 0 8 in
  let b' := Slice 0 2 6 in
  valid heap8 b /\ slice_from b 2 = Ok b' /\ 0 <= 1 /\ 2 + 1 + 4 <= len b
  /\ exists h',
      SetInt (NewPageFromBytes b') 1 345 heap8 = (h', Ok tt)
      /\ bytes_of h' b
         = splice (bytes_of heap8 b) (Z.to_nat (2 + 1)) (be32 (uint32 345))
      /\ GetInt (NewPageFromBytes b) (2 + 1) h' = (h', Ok (345 mod 2 ^ 32))
      /\ GetInt (NewPageFromBytes b') 1 h' = (h', Ok (345 mod 2 ^ 32)).
Proof.
  intros b b'.
  assert (valid heap8 b) as Hv by (unfold valid, MaxInt64; simpl; lia).
  assert (2 + 1 + 4 <= len b) as Hhi by (unfold len; simpl; lia).
  split; [exact Hv|]. split; [reflexivity|]. split; [lia|].
  split; [exact Hhi|].
  apply (NewPageFromBytes_shares_storage heap8 b 2 1 345 b' Hv eq_refl
           ltac:(lia) Hhi).
Defined.

(** ** Handles *)

Lemma same_handles_refl w : same_handles w w.
Proof. split; reflexivity. Qed.

Lemma same_handles_trans w1 w2 w3 :
  same_handles w1 w2 -> same_handles w2 w3 -> same_handles w1 w3.
Proof. intros (H1 & H2) (H3 & H4). split; congruence. Qed.

Lemma keeps_bind {A B} (m : M world A) (k : A -> M world B) :
  keeps_handles m -> (forall a, keeps_handles (k a)) ->
  keeps_handles (bind m k).
Proof.
  intros Hm Hk w w' r H. unfold bind in H.
  destruct (m w) as [w1 [a|e|e]] eqn:E; pose proof (Hm _ _ _ E) as H1;
    [|injection H as <- _; exact H1..].
  eapply same_handles_trans; [exact H1|]. eapply Hk. exact H.
Qed.

Lemma keeps_lift {A} (r : result A) : keeps_handles (lift r).
Proof. intros w w' r' [= <- _]. apply same_handles_refl. Qed.

Lemma keeps_on_heap {A} (m : M heap A) : keeps_handles (on_heap m).
Proof.
  intros w w' r H. unfold on_heap in H.
  destruct (m (w_heap w)) as [h r0]. injection H as <- _. split; reflexivity.
Qed.

Lemma keeps_Stat f : keeps_handles (Stat f).
Proof.
  intros w w' r H. unfold Stat in H.
  destruct (fd_lookup _ f) as [[[name pos] data]|]; injection H as <- _;
    split; reflexivity.
Qed.

Lemma keeps_Sync f : keeps_handles (Sync f).
Proof.
  intros w w' r H. unfold Sync in H.
  destruct (fd_lookup _ f); injection H as <- _; split; reflexivity.
Qed.

Lemma keeps_Seek f offset : keeps_handles (Seek f offset).
Proof.
  intros w w' r H. unfold Seek in H.
  destruct (fd_lookup _ f) as [[[name pos] data]|];
    [destruct (offset <? 0)|]; injection H as <- _; split; try reflexivity.
  cbn. apply length_insert.
Qed.

Lemma keeps_ReadFull f b : keeps_handles (ReadFull f b).
Proof.
  intros w w' r H. unfold ReadFull in H.
  destruct (s_len b =? 0)%nat; [injection H as <- _; apply same_handles_refl|].
  destruct (fd_lookup _ f) as [[[name pos] data]|];
    [|injection H as <- _; split; reflexivity].
  cbn [w_fdt w_heap trace set_fdt set_heap] in H.
  match type of H with
  | (if ?c then _ else if ?c' then _ else _) = _ =>
      destruct c; [|destruct c']
  end; injection H as <- _; (split; [reflexivity|cbn; apply length_insert]).
Qed.

Lemma keeps_Write_ f b : keeps_handles (Write_ f b).
Proof.
  intros w w' r H. unfold Write_ in H.
  destruct (fd_lookup _ f) as [[[name pos] data]|];
    [destruct (_ >? _)|]; injection H as <- _; split; try reflexivity.
  cbn. apply length_insert.
Qed.

Lemma keeps_WriteAt f b off : keeps_handles (WriteAt f b off).
Proof.
  intros w w' r H. unfold WriteAt in H.
  destruct (off <? 0); [injection H as <- _; apply same_handles_refl|].
  destruct (fd_lookup _ f) as [[[name pos] data]|];
    [destruct (_ >? _)|]; injection H as <- _; split; reflexivity.
Qed.

Lemma keeps_ret {A} (a : A) : keeps_handles (ret a).
Proof. intros w w' r [= <- _]. apply same_handles_refl. Qed.

Create HintDb handles.
#[local] Hint Resolve keeps_bind keeps_lift keeps_ret keeps_on_heap keeps_Stat
  keeps_Sync keeps_Seek keeps_ReadFull keeps_Write_ keeps_WriteAt : handles.

(** [getFile], then calls on the file it gave. *)
Lemma getFile_then {A} fm name (k : File -> M world A) w :
  (forall f, keeps_handles (k f)) ->
  opens_at_most_once name w (bind (getFile fm name) k w).
Proof.
  intros Hk. unfold opens_at_most_once.
  destruct (bind (getFile fm name) k w) as [w' r] eqn:H.
  unfold bind, getFile in H.
  destruct (w_open w !! name) as [f|] eqn:Ho.
  - destruct (Hk _ _ _ _ H) as (H1 & H2).
    split; [intros _; split; assumption|]. split; [intros; congruence|].
    split; [lia|]. intros _. rewrite H1, Ho. eauto.
  - unfold bind, OpenFile in H. cbn [w_dir trace] in H.
    split; [intros [x Hx]; discriminate|].
    destruct (w_dir w !! name) as [[d|names]|].
    + destruct (Hk _ _ _ _ H) as (H1 & H2). cbn in H1, H2.
      rewrite length_app in H2. cbn in H2.
      split; [intros other Hne; rewrite H1; apply lookup_insert_ne; congruence|].
      split; [lia|]. intros _. rewrite H1, lookup_insert_eq. eauto.
    + injection H as <- <-.
      split; [reflexivity|]. split; [cbn; lia|]. discriminate.
    + destruct (Hk _ _ _ _ H) as (H1 & H2). cbn in H1, H2.
      rewrite length_app in H2. cbn in H2.
      split; [intros other Hne; rewrite H1; apply lookup_insert_ne; congruence|].
      split; [lia|]. intros _. rewrite H1, lookup_insert_eq. eauto.
Qed.

Lemma refused_opens_nothing {A} name w (e : string) :
  opens_at_most_once name w (@fail world A e w).
Proof.
  unfold fail, opens_at_most_once.
  split; [intros _; apply same_handles_refl|]. split; [reflexivity|].
  split; [lia|]. discriminate.
Qed.

(** X18. A file is opened once.  Whatever [Length], [Read], [Write] or
    [Append] returns: when the name is in the cache of open files the call
    opens nothing (the cache and the number of descriptors stay as they
    are); otherwise it opens at most one descriptor; the handles cached for
    other names are never touched; and after a call that succeeded the name
    is in the cache.  No call closes a descriptor. *)
Theorem files_are_opened_once fm blk p w :
  let name := FileName blk in
  opens_at_most_once name w (Length fm name w)
  /\ opens_at_most_once name w (Read fm blk p w)
  /\ opens_at_most_once name w (Write fm blk p w)
  /\ opens_at_most_once name w (Append fm name w).
Proof.
  intros name. split; [|split; [|split]].
  - unfold Length. apply getFile_then. auto with handles.
  - unfold Read. destruct (negb _); [apply refused_opens_nothing|].
    apply getFile_then. auto 8 with handles.
  - unfold Write. destruct (negb _); [apply refused_opens_nothing|].
    apply getFile_then. auto 8 with handles.
  - unfold Append. apply getFile_then. auto 12 with handles.
Qed.
